(** * gobson: the BSON encoder and the ObjectId generator

    A shallow embedding of [encode.go] and of the ObjectId and schema parts
    of [gobson.go].

    - Machine integers are [Z] with the wrap-around of each Go conversion
      written out ([byte], [int32], [uint32], [int64], [uint64]).
    - A byte slice is a [list Z] of numbers below 256; a Go string is a
      [string], whose characters are its bytes.
    - A [reflect.Value] is a tree ([value]) that carries what the encoder
      inspects: the kind, the identity of the library's own types, and the
      children reached by [Elem], [Index], [Field], [MapIndex] and [GetBSON].
    - The encoder is state passing over the [encoder] record; a Go panic is
      the [Panic] result, tagged with the kind of value [handleErr] sees. *)

From Stdlib Require Import ZArith List String Ascii Bool Lia DecimalString.
From coqutil Require Import Z.bitblast.
Import ListNotations.
Open Scope string_scope.
Open Scope list_scope.
Open Scope Z_scope.

(* ------------------------------------------------------------------ *)
(** ** Integers, bytes and strings *)

Definition byte (x : Z) : Z := x mod 2 ^ 8.
Definition uint32 (x : Z) : Z := x mod 2 ^ 32.
Definition uint64 (x : Z) : Z := x mod 2 ^ 64.
Definition int32 (x : Z) : Z := (x + 2 ^ 31) mod 2 ^ 32 - 2 ^ 31.
Definition int64 (x : Z) : Z := (x + 2 ^ 63) mod 2 ^ 64 - 2 ^ 63.

Definition MaxInt32 : Z := 2 ^ 31 - 1.
Definition MinInt32 : Z := - 2 ^ 31.

(** [[]byte(s)] *)
Definition bytesOf (s : string) : list Z :=
  map (fun c => Z.of_N (N_of_ascii c)) (list_ascii_of_string s).

(** [len(s)] and [len(b)] *)
Definition len (s : string) : Z := Z.of_nat (String.length s).
Definition blen (b : list Z) : Z := Z.of_nat (List.length b).

(** [strconv.Itoa] *)
Definition Itoa (i : Z) : string := NilEmpty.string_of_int (Z.to_int i).

Definition itoaCacheSize : nat := 32.

Definition itoaCache : list string :=
  map (fun i => Itoa (Z.of_nat i)) (seq 0 itoaCacheSize).

Definition itoa (i : nat) : string :=
  if (i <? itoaCacheSize)%nat then nth i itoaCache "" else Itoa (Z.of_nat i).

(* ------------------------------------------------------------------ *)
(** ** Panics and results *)

(** What [recover()] may return in [handleErr]: a string, an [os.Error], or
    a [runtime.Error]. *)
Inductive panicValue : Type :=
| PString (s : string)
| PError (s : string)
| PRuntime (s : string).

Inductive result (A : Type) : Type :=
| Ok (a : A)
| Panic (p : panicValue).

Arguments Ok {A} a.
Arguments Panic {A} p.

(* ------------------------------------------------------------------ *)
(** ** The encoder and its byte primitives *)

Record encoder : Type := mkEncoder { out : list Z }.

Definition action : Type := encoder -> result encoder.

Definition ret : action := fun e => Ok e.

Definition panic (p : panicValue) : action := fun _ => Panic p.

Definition andThen (f g : action) : action :=
  fun e => match f e with
           | Ok e' => g e'
           | Panic p => Panic p
           end.

Notation "f ;; g" := (andThen f g) (at level 61, right associativity).

Definition addBytes (v : list Z) : action :=
  fun e => Ok (mkEncoder (out e ++ v)).

Definition addInt64 (v : Z) : action :=
  let u := uint64 v in
  addBytes [byte u; byte (Z.shiftr u 8); byte (Z.shiftr u 16);
            byte (Z.shiftr u 24); byte (Z.shiftr u 32); byte (Z.shiftr u 40);
            byte (Z.shiftr u 48); byte (Z.shiftr u 56)].

Definition addInt32 (v : Z) : action :=
  let u := uint32 v in
  addBytes [byte u; byte (Z.shiftr u 8); byte (Z.shiftr u 16);
            byte (Z.shiftr u 24)].

(** [e.out[pos] = b]; an index outside the slice is a run-time panic. *)
Fixpoint update (l : list Z) (pos : nat) (b : Z) : list Z :=
  match l, pos with
  | [], _ => []
  | _ :: l', O => b :: l'
  | x :: l', S pos' => x :: update l' pos' b
  end.

Definition store (pos : nat) (b : Z) : action :=
  fun e =>
    if (pos <? List.length (out e))%nat
    then Ok (mkEncoder (update (out e) pos b))
    else Panic (PRuntime "index out of range").

Definition setInt32 (pos : nat) (v : Z) : action :=
  store (pos + 0) (byte v) ;;
  store (pos + 1) (byte (Z.shiftr v 8)) ;;
  store (pos + 2) (byte (Z.shiftr v 16)) ;;
  store (pos + 3) (byte (Z.shiftr v 24)).

Definition reserveInt32 (e : encoder) : nat * encoder :=
  let pos := List.length (out e) in
  (pos, mkEncoder (out e ++ [0; 0; 0; 0])).

Definition addCStr (v : string) : action :=
  addBytes (bytesOf v) ;; addBytes [0].

Definition addStr (v : string) : action :=
  addInt32 (int32 (len v + 1)) ;; addCStr v.

Definition addBinary (subtype : Z) (v : list Z) : action :=
  (if subtype =? 0x02
   then addInt32 (int32 (blen v + 4)) ;;
        addBytes [subtype] ;;
        addInt32 (int32 (blen v))
   else addInt32 (int32 (blen v)) ;;
        addBytes [subtype]) ;;
  addBytes v.

Definition addElemName (kind : Z) (name : string) : action :=
  addBytes [kind] ;; addBytes (bytesOf name) ;; addBytes [0].

(* ------------------------------------------------------------------ *)
(** ** Values as the encoder sees them through reflection *)

(** [reflect.Kind], in the order of its declaration: the encoder compares
    kinds with [<=]. *)
Inductive Kind : Type :=
| Invalid | Bool | Int | Int8 | Int16 | Int32 | Int64
| Uint | Uint8 | Uint16 | Uint32 | Uint64 | Uintptr
| Float32 | Float64 | Complex64 | Complex128
| Array | Chan | Func | Interface | Map | Ptr | Slice | String_ | Struct
| UnsafePointer.

Definition Kind_rank (k : Kind) : Z :=
  match k with
  | Invalid => 0 | Bool => 1 | Int => 2 | Int8 => 3 | Int16 => 4
  | Int32 => 5 | Int64 => 6 | Uint => 7 | Uint8 => 8 | Uint16 => 9
  | Uint32 => 10 | Uint64 => 11 | Uintptr => 12 | Float32 => 13
  | Float64 => 14 | Complex64 => 15 | Complex128 => 16 | Array => 17
  | Chan => 18 | Func => 19 | Interface => 20 | Map => 21 | Ptr => 22
  | Slice => 23 | String_ => 24 | Struct => 25 | UnsafePointer => 26
  end.

Definition Kind_leb (a b : Kind) : bool := Kind_rank a <=? Kind_rank b.

(** The type of a string value: the library's [ObjectId] and [Symbol], or
    any other type whose kind is [String]. *)
Inductive stringType : Type := TString | typeObjectId | typeSymbol.

(** The type of a signed integer value: the library's [Timestamp],
    [MongoTimestamp] and [orderKey] (all of kind [Int64]), or any other type
    of the given kind. *)
Inductive intType : Type :=
| TInt | TInt8 | TInt16 | TInt32 | TInt64
| typeTimestamp | typeMongoTimestamp | typeOrderKey.

Inductive uintType : Type :=
| TUint | TUint8 | TUint16 | TUint32 | TUint64 | TUintptr.

Inductive floatType : Type := TFloat32 | TFloat64.

(** Kinds the encoder has no case for. *)
Inductive otherType : Type :=
| TComplex64 | TComplex128 | TChan | TFunc | TUnsafePointer.

(** What the encoder asks of a slice or array type: [SeqBytes] has element
    kind [Uint8] and converts to [[]byte]; [SeqUint8] has element kind
    [Uint8] but is a type of its own, so that the assertion [.([]byte)]
    fails; [SeqDocElem] has element type [DocElem] without being [D]. *)
Inductive seqType : Type := SeqBytes | SeqUint8 | SeqDocElem | SeqOther.

(** The identity of a struct type: one of the library's, or any other. *)
Inductive structType : Type :=
| typeRaw | typeBinary | typeRegEx | typeJS | typeUndefined | TStruct.

(** [reflect.StructField], as far as [getStructFields] reads it. *)
Record StructField : Type := mkStructField {
  Name : string;
  PkgPath : string;
  Tag : string
}.

(** - [VInvalid] is the zero [reflect.Value]: [reflect.ValueOf(nil)] and the
      [Elem()] of a nil pointer or interface.
    - [VGetter self bson] is a value whose type implements [Getter]: [self]
      is the value itself, [bson] is [reflect.ValueOf(v.GetBSON())].
    - [VInterface elem] is a value of kind [Interface] (a field, element or
      map value of interface type) and [elem] its [Elem()].
    - [VMap] lists [(k.String(), v.MapIndex(k))] in the order of
      [v.MapKeys()].
    - [VD] is a [D]: the pairs [(elem.Name, reflect.ValueOf(elem.Value))].
    - [VFloat] carries [math.Float64bits(v.Float())].
    - [VArray addressable] records whether [v.Slice] may be called.
    - [VStruct] lists every declared field with [v.Field(i)]. *)
#[local] Unset Elimination Schemes.

Inductive value : Type :=
| VInvalid
| VGetter (self bson : value)
| VInterface (elem : value)
| VPtr (elem : value)
| VString (t : stringType) (s : string)
| VFloat (t : floatType) (bits : Z)
| VUint (t : uintType) (u : Z)
| VInt (t : intType) (i : Z)
| VBool (b : bool)
| VMap (entries : list (string * value))
| VD (elems : list (string * value))
| VSlice (t : seqType) (elems : list value)
| VArray (addressable : bool) (t : seqType) (elems : list value)
| VStruct (t : structType) (fields : list (StructField * value))
| VOther (t : otherType).

#[local] Set Elimination Schemes.

Definition intKind (t : intType) : Kind :=
  match t with
  | TInt => Int | TInt8 => Int8 | TInt16 => Int16 | TInt32 => Int32
  | TInt64 | typeTimestamp | typeMongoTimestamp | typeOrderKey => Int64
  end.

Definition uintKind (t : uintType) : Kind :=
  match t with
  | TUint => Uint | TUint8 => Uint8 | TUint16 => Uint16 | TUint32 => Uint32
  | TUint64 => Uint64 | TUintptr => Uintptr
  end.

Definition floatKind (t : floatType) : Kind :=
  match t with TFloat32 => Float32 | TFloat64 => Float64 end.

Definition otherKind (t : otherType) : Kind :=
  match t with
  | TComplex64 => Complex64 | TComplex128 => Complex128 | TChan => Chan
  | TFunc => Func | TUnsafePointer => UnsafePointer
  end.

(** [v.Kind()] *)
Fixpoint Kind_of (v : value) : Kind :=
  match v with
  | VInvalid => Invalid
  | VGetter self _ => Kind_of self
  | VInterface _ => Interface
  | VPtr _ => Ptr
  | VString _ _ => String_
  | VFloat t _ => floatKind t
  | VUint t _ => uintKind t
  | VInt t _ => intKind t
  | VBool _ => Bool
  | VMap _ => Map
  | VD _ | VSlice _ _ => Slice
  | VArray _ _ _ => Array
  | VStruct _ _ => Struct
  | VOther t => otherKind t
  end.

(** The accessors of [reflect.Value] that [isZero] and the type switches
    use; each is read only under the kind it is defined for. *)
Fixpoint StringOf (v : value) : string :=
  match v with VGetter self _ => StringOf self | VString _ s => s | _ => "" end.

Fixpoint IntOf (v : value) : Z :=
  match v with VGetter self _ => IntOf self | VInt _ i => i | _ => 0 end.

Fixpoint UintOf (v : value) : Z :=
  match v with VGetter self _ => UintOf self | VUint _ u => u | _ => 0 end.

Fixpoint BoolOf (v : value) : bool :=
  match v with VGetter self _ => BoolOf self | VBool b => b | _ => false end.

Fixpoint IsNil (v : value) : bool :=
  match v with
  | VGetter self _ => IsNil self
  | VInterface VInvalid | VPtr VInvalid => true
  | _ => false
  end.

Fixpoint Len (v : value) : Z :=
  match v with
  | VGetter self _ => Len self
  | VMap entries => Z.of_nat (List.length entries)
  | VD elems => Z.of_nat (List.length elems)
  | VSlice _ elems | VArray _ _ elems => Z.of_nat (List.length elems)
  | _ => 0
  end.

(** [v.Interface().([]byte)] on a byte slice *)
Definition BytesOfElems (elems : list value) : list Z := map UintOf elems.

(** [v.Field(i)] *)
Definition Field (fields : list (StructField * value)) (i : nat) : value :=
  match nth_error fields i with
  | Some (_, x) => x
  | None => VInvalid
  end.

Definition isZero (v : value) : bool :=
  match Kind_of v with
  | String_ => len (StringOf v) =? 0
  | Ptr | Interface => IsNil v
  | Slice => Len v =? 0
  | Map => Len v =? 0
  | Int | Int8 | Int16 | Int32 | Int64 => IntOf v =? 0
  | Uint | Uint8 | Uint16 | Uint32 | Uint64 | Uintptr => UintOf v =? 0
  | Bool => negb (BoolOf v)
  | _ => false
  end.

(** The library's struct values, as the structs they are. *)
Definition exported (name : string) : StructField :=
  {| Name := name; PkgPath := ""; Tag := "" |}.

Definition bytesValue (data : list Z) : value :=
  VSlice SeqBytes (map (VUint TUint8) data).

Definition Raw (kind : Z) (data : list Z) : value :=
  VStruct typeRaw [(exported "Kind", VUint TUint8 kind);
                   (exported "Data", bytesValue data)].

Definition Binary (kind : Z) (data : list Z) : value :=
  VStruct typeBinary [(exported "Kind", VUint TUint8 kind);
                      (exported "Data", bytesValue data)].

Definition RegEx (pattern options : string) : value :=
  VStruct typeRegEx [(exported "Pattern", VString TString pattern);
                     (exported "Options", VString TString options)].

(** [scope] is [reflect.ValueOf(s.Scope)]: [VInvalid] for a nil scope. *)
Definition JS (code : string) (scope : value) : value :=
  VStruct typeJS [(exported "Code", VString TString code);
                  (exported "Scope", VInterface scope)].

Definition Undefined : value := VStruct typeUndefined [].

Definition MaxKey : Z := 2 ^ 63 - 1.
Definition MinKey : Z := - 2 ^ 63.

(* ------------------------------------------------------------------ *)
(** ** The field schema of a struct type *)

Record fieldInfo : Type := mkFieldInfo {
  Key : string;
  Num : nat;
  Conditional : bool;
  Short : bool
}.

Record structFields : Type := mkStructFields {
  FieldMap : list (string * fieldInfo);
  FieldList : list fieldInfo
}.

(** [strings.LastIndex(s, sep)] for a separator of one byte. *)
Fixpoint LastIndex (s : string) (sep : ascii) : Z :=
  match s with
  | EmptyString => -1
  | String c rest =>
      let r := LastIndex rest sep in
      if 0 <=? r then r + 1
      else if Ascii.eqb c sep then 0 else -1
  end.

(** [strings.ToLower], on the ASCII letters. *)
Definition lower (c : ascii) : ascii :=
  let n := nat_of_ascii c in
  if ((65 <=? n) && (n <=? 90))%nat then ascii_of_nat (n + 32) else c.

Fixpoint ToLower (s : string) : string :=
  match s with
  | EmptyString => EmptyString
  | String c rest => String (lower c) (ToLower rest)
  end.

(** The loop over the flags after the last slash of a tag. *)
Fixpoint parseFlags (flags : string) (info : fieldInfo) : result fieldInfo :=
  match flags with
  | EmptyString => Ok info
  | String c rest =>
      if Ascii.eqb c "c"
      then parseFlags rest (mkFieldInfo (Key info) (Num info) true (Short info))
      else if Ascii.eqb c "s"
      then parseFlags rest
             (mkFieldInfo (Key info) (Num info) (Conditional info) true)
      else Panic (PString ("Unsupported field flag: " ++ String c ""))
  end.

Definition found (key : string) (m : list (string * fieldInfo)) : bool :=
  existsb (fun p => String.eqb (fst p) key) m.

(** The body of the loop of [getStructFields], from field [i] on.
    [fieldsList[len(fieldsMap)] = info], sliced to [len(fieldsMap)] at the
    end, is an append. The result is the pair the function returns: the
    schema, or the error for a duplicated key. *)
Fixpoint getStructFieldsFrom (fields : list StructField) (i : nat)
    (fieldsMap : list (string * fieldInfo)) (fieldsList : list fieldInfo)
    : result (structFields + string) :=
  match fields with
  | [] => Ok (inl (mkStructFields fieldsMap fieldsList))
  | field :: rest =>
      if negb (String.eqb (PkgPath field) "")
      then getStructFieldsFrom rest (S i) fieldsMap fieldsList
      else
        let info := mkFieldInfo "" i false false in
        let s := LastIndex (Tag field) "/" in
        let parsed :=
          if s =? -1 then Ok (info, Tag field)
          else
            let n := String.length (Tag field) in
            let flags := substring (Z.to_nat (s + 1))
                                   (n - Z.to_nat (s + 1)) (Tag field) in
            match parseFlags flags info with
            | Ok info' => Ok (info', substring 0 (Z.to_nat s) (Tag field))
            | Panic p => Panic p
            end in
        match parsed with
        | Panic p => Panic p
        | Ok (info, tag) =>
            let key := if String.eqb tag "" then ToLower (Name field)
                       else tag in
            let info := mkFieldInfo key (Num info) (Conditional info)
                                    (Short info) in
            if found key fieldsMap
            then Ok (inr ("Duplicated key '" ++ key ++ "' in struct")%string)
            else getStructFieldsFrom rest (S i)
                   (fieldsMap ++ [(key, info)]) (fieldsList ++ [info])
        end
  end.

(** [getStructFields]. The memo table [fieldMap] is left out: a hit returns
    what this derivation returned for the same type. *)
Definition getStructFields (st : list StructField)
    : result (structFields + string) :=
  getStructFieldsFrom st 0 [] [].

(* ------------------------------------------------------------------ *)
(** ** Marshaling of the document value itself *)

Section Documents.

(** The element encoder, tied to the functions of this section below. *)
Variable addElem : string -> value -> bool -> action.

(** [addMap]: one element per key, in the order of [MapKeys()]. *)
Fixpoint addMap_of (entries : list (string * value)) : action :=
  match entries with
  | [] => ret
  | (k, x) :: rest => addElem k x false ;; addMap_of rest
  end.

(** The loop of [addStruct]: [for i, info := range fields.List] reads
    [v.Field(i)], so the [i]-th schema entry meets the [i]-th declared
    field of the value, exported or not. A schema longer than the value
    cannot arise, and [v.Field] would panic there. Whether [reflect] lets
    [addElem] call [v.Interface()] on a field that is unexported depends on
    the Go release; here the value is encoded like any other. *)
Fixpoint addStructFields_of (infos : list fieldInfo)
    (fields : list (StructField * value)) {struct fields} : action :=
  match infos, fields with
  | [], _ => ret
  | info :: infos', (_, value) :: fields' =>
      (if Conditional info && isZero value
       then ret
       else addElem (Key info) value (Short info)) ;;
      addStructFields_of infos' fields'
  | _ :: _, [] => panic (PString "reflect: Field index out of range")
  end.

Definition addStruct_of (fields : list (StructField * value)) : action :=
  match getStructFields (map fst fields) with
  | Panic p => panic p
  | Ok (inr err) => panic (PError err)
  | Ok (inl schema) => addStructFields_of (FieldList schema) fields
  end.

(** The two loops of [addSlice]. *)
Fixpoint addD_of (d : list (string * value)) : action :=
  match d with
  | [] => ret
  | (name, x) :: rest => addElem name x false ;; addD_of rest
  end.

Fixpoint addIndexed_of (i : nat) (elems : list value) : action :=
  match elems with
  | [] => ret
  | x :: rest => addElem (itoa i) x false ;; addIndexed_of (S i) rest
  end.

(** [addDoc] after its loop: the Raw splice, or the length slot, the
    elements by kind, the terminator and the length. On the zero Value
    [reflect] panics with a [*ValueError], which is an [os.Error]. *)
Definition addDocBody_of (v : value) : action :=
  match v with
  | VInvalid =>
      panic (PError "reflect: call of a reflect.Value method on zero Value")
  | VStruct typeRaw fields =>
      let kind := UintOf (Field fields 0) in
      let data := match Field fields 1 with
                  | VSlice _ elems => BytesOfElems elems
                  | _ => []
                  end in
      if negb (kind =? 0x03) && negb (kind =? 0x00)
      then panic (PString ("Attempted to unmarshal Raw kind " ++
                           Itoa kind ++ " as a document"))
      else addBytes data
  | _ =>
      fun e =>
        let (start, e1) := reserveInt32 e in
        ((match v with
          | VMap entries => addMap_of entries
          | VStruct _ fields => addStruct_of fields
          | VD d => addD_of d
          | VSlice _ elems | VArray _ _ elems => addIndexed_of 0 elems
          | _ => panic (PString "Can't marshal value as a BSON document")
          end) ;;
         addBytes [0] ;;
         (fun e2 =>
            setInt32 start
              (int32 (Z.of_nat (List.length (out e2)) - Z.of_nat start))
              e2)) e1
  end.

(** [addDoc]: the loop replaces a Getter by what it returns and a pointer
    by what it points to. [v.Interface()] of a value of kind [Interface]
    is the value inside. *)
Fixpoint addDoc_of (v : value) : action :=
  match v with
  | VGetter _ bson => addDoc_of bson
  | VInterface (VGetter _ bson) => addDoc_of bson
  | VPtr elem => addDoc_of elem
  | _ => addDocBody_of v
  end.

End Documents.

(* ------------------------------------------------------------------ *)
(** ** Marshaling of elements in a document *)

Fixpoint addElem (name : string) (v : value) (short : bool) {struct v}
    : action :=
  match v with
  | VInvalid => addElemName 0x0A name

  | VGetter _ bson => addElem name bson short
  | VInterface (VGetter _ bson) => addElem name bson short

  | VInterface elem => addElem name elem short

  | VPtr elem => addElem name elem short

  | VString t s =>
      match t with
      | typeObjectId =>
          if negb (len s =? 12)
          then panic (PString ("ObjectIDs must be exactly 12 bytes long (got "
                               ++ Itoa (len s) ++ ")"))
          else addElemName 0x07 name ;; addBytes (bytesOf s)
      | typeSymbol => addElemName 0x0E name ;; addStr s
      | TString => addElemName 0x02 name ;; addStr s
      end

  | VFloat _ bits => addElemName 0x01 name ;; addInt64 (int64 bits)

  | VUint t u =>
      if int64 u <? 0
      then panic (PString "BSON has no uint64 type, and value is too large to fit correctly in an int64")
      else if (u <=? MaxInt32) && (short || Kind_leb (uintKind t) Uint32)
      then addElemName 0x10 name ;; addInt32 (int32 u)
      else addElemName 0x12 name ;; addInt64 (int64 u)

  | VInt t i =>
      if Kind_leb (intKind t) Int32
      then addElemName 0x10 name ;; addInt32 (int32 i)
      else
        match t with
        | typeTimestamp => addElemName 0x09 name ;; addInt64 (Z.quot i 1000000)
        | typeMongoTimestamp => addElemName 0x11 name ;; addInt64 i
        | typeOrderKey =>
            if i =? MaxKey
            then addElemName 0x7F name
            else addElemName 0xFF name
        | _ =>
            if short && (MinInt32 <=? i) && (i <=? MaxInt32)
            then addElemName 0x10 name ;; addInt32 (int32 i)
            else addElemName 0x12 name ;; addInt64 i
        end

  | VBool b =>
      addElemName 0x08 name ;;
      (if b then addBytes [1] else addBytes [0])

  | VMap _ => addElemName 0x03 name ;; addDoc_of addElem v

  | VD _ => addElemName 0x03 name ;; addDoc_of addElem v

  | VSlice t elems =>
      match t with
      | SeqBytes =>
          addElemName 0x05 name ;; addBinary 0x00 (BytesOfElems elems)
      | SeqUint8 =>
          addElemName 0x05 name ;;
          panic (PRuntime "interface conversion: interface is not []uint8")
      | SeqDocElem => addElemName 0x03 name ;; addDoc_of addElem v
      | SeqOther => addElemName 0x04 name ;; addDoc_of addElem v
      end

  | VArray addressable t elems =>
      match t with
      | SeqBytes | SeqUint8 =>
          addElemName 0x05 name ;;
          (if addressable
           then match t with
                | SeqBytes => addBinary 0x00 (BytesOfElems elems)
                | _ => panic (PRuntime
                         "interface conversion: interface is not []uint8")
                end
           else panic (PString
                  "reflect.Value.Slice: slice of unaddressable array"))
      | _ => addElemName 0x04 name ;; addDoc_of addElem v
      end

  | VStruct t fields =>
      match t with
      | typeRaw =>
          let kind := UintOf (Field fields 0) in
          let data := match Field fields 1 with
                      | VSlice _ elems => BytesOfElems elems
                      | _ => []
                      end in
          let kind := if kind =? 0x00 then 0x03 else kind in
          addElemName kind name ;; addBytes data
      | typeBinary =>
          let kind := UintOf (Field fields 0) in
          let data := match Field fields 1 with
                      | VSlice _ elems => BytesOfElems elems
                      | _ => []
                      end in
          addElemName 0x05 name ;; addBinary kind data
      | typeRegEx =>
          addElemName 0x0B name ;;
          addCStr (StringOf (Field fields 0)) ;;
          addCStr (StringOf (Field fields 1))
      | typeJS =>
          let code := StringOf (Field fields 0) in
          match fields with
          | _ :: (_, VInterface VInvalid) :: _ =>
              addElemName 0x0D name ;; addStr code
          | _ :: (_, VInterface scope) :: _ =>
              addElemName 0x0F name ;;
              (fun e =>
                 let (start, e1) := reserveInt32 e in
                 (addStr code ;;
                  addDoc_of addElem scope ;;
                  (fun e2 =>
                     setInt32 start
                       (int32 (Z.of_nat (List.length (out e2)) -
                               Z.of_nat start)) e2)) e1)
          | _ => addElemName 0x0D name ;; addStr code
          end
      | typeUndefined => addElemName 0x06 name
      | TStruct => addElemName 0x03 name ;; addDoc_of addElem v
      end

  | VOther _ => panic (PString "Can't marshal value in a BSON document")
  end.

Definition addMap : list (string * value) -> action := addMap_of addElem.
Definition addStruct : list (StructField * value) -> action :=
  addStruct_of addElem.
Definition addDocBody : value -> action := addDocBody_of addElem.
Definition addDoc : value -> action := addDoc_of addElem.

(* ------------------------------------------------------------------ *)
(** ** The public entry point *)

(** [handleErr]: a run-time error is raised again, a string or an
    [os.Error] becomes the error that [Marshal] returns. *)
Definition handleErr (r : panicValue) : result (option string) :=
  match r with
  | PRuntime _ => Panic r
  | PString s => Ok (Some s)
  | PError e => Ok (Some e)
  end.

(** [Marshal] returns the pair [(out, err)]; after a recovered panic [out]
    is the nil slice. *)
Definition Marshal (v : value) : result (list Z * option string) :=
  match addDoc v (mkEncoder []) with
  | Ok e => Ok (out e, None)
  | Panic r =>
      match handleErr r with
      | Ok err => Ok ([], err)
      | Panic p => Panic p
      end
  end.

(* ------------------------------------------------------------------ *)
(** ** Induction over values *)

Section value_induction.

Variable P : value -> Prop.

Hypothesis HInvalid : P VInvalid.
Hypothesis HGetter : forall self bson, P self -> P bson -> P (VGetter self bson).
Hypothesis HInterface : forall elem, P elem -> P (VInterface elem).
Hypothesis HPtr : forall elem, P elem -> P (VPtr elem).
Hypothesis HString : forall t s, P (VString t s).
Hypothesis HFloat : forall t bits, P (VFloat t bits).
Hypothesis HUint : forall t u, P (VUint t u).
Hypothesis HInt : forall t i, P (VInt t i).
Hypothesis HBool : forall b, P (VBool b).
Hypothesis HMap : forall entries,
  Forall (fun p => P (snd p)) entries -> P (VMap entries).
Hypothesis HD : forall elems,
  Forall (fun p => P (snd p)) elems -> P (VD elems).
Hypothesis HSlice : forall t elems, Forall P elems -> P (VSlice t elems).
Hypothesis HArray : forall a t elems, Forall P elems -> P (VArray a t elems).
Hypothesis HStruct : forall t fields,
  Forall (fun p => P (snd p)) fields -> P (VStruct t fields).
Hypothesis HOther : forall t, P (VOther t).

Fixpoint value_ind (v : value) : P v :=
  match v with
  | VInvalid => HInvalid
  | VGetter self bson => HGetter self bson (value_ind self) (value_ind bson)
  | VInterface elem => HInterface elem (value_ind elem)
  | VPtr elem => HPtr elem (value_ind elem)
  | VString t s => HString t s
  | VFloat t bits => HFloat t bits
  | VUint t u => HUint t u
  | VInt t i => HInt t i
  | VBool b => HBool b
  | VMap entries =>
      HMap entries
        ((fix all (l : list (string * value)) : Forall (fun p => P (snd p)) l :=
            match l with
            | [] => Forall_nil _
            | (k, x) :: l' => Forall_cons (k, x) (value_ind x) (all l')
            end) entries)
  | VD elems =>
      HD elems
        ((fix all (l : list (string * value)) : Forall (fun p => P (snd p)) l :=
            match l with
            | [] => Forall_nil _
            | (k, x) :: l' => Forall_cons (k, x) (value_ind x) (all l')
            end) elems)
  | VSlice t elems =>
      HSlice t elems
        ((fix all (l : list value) : Forall P l :=
            match l with
            | [] => Forall_nil _
            | x :: l' => Forall_cons x (value_ind x) (all l')
            end) elems)
  | VArray a t elems =>
      HArray a t elems
        ((fix all (l : list value) : Forall P l :=
            match l with
            | [] => Forall_nil _
            | x :: l' => Forall_cons x (value_ind x) (all l')
            end) elems)
  | VStruct t fields =>
      HStruct t fields
        ((fix all (l : list (StructField * value))
            : Forall (fun p => P (snd p)) l :=
            match l with
            | [] => Forall_nil _
            | (f, x) :: l' => Forall_cons (f, x) (value_ind x) (all l')
            end) fields)
  | VOther t => HOther t
  end.

End value_induction.

(* ------------------------------------------------------------------ *)
(** ** What an action appends *)

(** [emits f d]: from every state, [f] appends exactly [d]. [fails f p]:
    from every state, [f] panics with [p]. The encoder is built from actions
    that are one or the other ([uniform]): its output does not depend on
    what was written before. *)
Definition emits (f : action) (d : list Z) : Prop :=
  forall e, f e = Ok (mkEncoder (out e ++ d)).

Definition fails (f : action) (p : panicValue) : Prop :=
  forall e, f e = Panic p.

Definition uniform (f : action) : Prop :=
  (exists d, emits f d) \/ (exists p, fails f p).

(** The four bytes [setInt32] stores and the bytes [addInt32] and [addInt64]
    append. *)
Definition le32 (v : Z) : list Z :=
  [byte v; byte (Z.shiftr v 8); byte (Z.shiftr v 16); byte (Z.shiftr v 24)].

Definition le64 (v : Z) : list Z :=
  [byte v; byte (Z.shiftr v 8); byte (Z.shiftr v 16); byte (Z.shiftr v 24);
   byte (Z.shiftr v 32); byte (Z.shiftr v 40); byte (Z.shiftr v 48);
   byte (Z.shiftr v 56)].

(** The back-patch that closes a length slot opened at [start]. *)
Definition patch (start : nat) : action :=
  fun e2 =>
    setInt32 start
      (int32 (Z.of_nat (List.length (out e2)) - Z.of_nat start)) e2.

(** Reading four bytes as a little-endian int32. *)
Definition readInt32 (d : list Z) : option Z :=
  match d with
  | b0 :: b1 :: b2 :: b3 :: _ =>
      Some (int32 (Z.lor (Z.lor (Z.lor b0 (Z.shiftl b1 8)) (Z.shiftl b2 16))
                         (Z.shiftl b3 24)))
  | _ => None
  end.

(** A document as the wire format has it: its first four bytes give its
    length and its last byte is zero. *)
Definition wellFormed (d : list Z) : Prop :=
  readInt32 d = Some (blen d) /\ last d 1 = 0.

(** The value [addDoc] is left with after its loop. *)
Fixpoint docRoot (v : value) : value :=
  match v with
  | VGetter _ bson => docRoot bson
  | VInterface (VGetter _ bson) => docRoot bson
  | VPtr elem => docRoot elem
  | _ => v
  end.

Definition isRaw (v : value) : bool :=
  match v with VStruct typeRaw _ => true | _ => false end.

(** The top-level values the specification allows: a mapping, a structure
    or a [D]. *)
Definition isDocumentValue (v : value) : bool :=
  match v with
  | VMap _ | VStruct _ _ | VD _ => true
  | _ => false
  end.

(** The kinds [addDoc] has a case for. *)
Definition isDocumentKind (k : Kind) : bool :=
  match k with
  | Map | Struct | Array | Slice => true
  | _ => false
  end.

(* ------------------------------------------------------------------ *)
(** ** ObjectId *)

(** [string(b)] for a byte slice [b]. *)
Definition stringOf (b : list Z) : string :=
  string_of_list_ascii (map (fun x => ascii_of_N (Z.to_N x)) b).

(** [ObjectId] is a string type. *)
Definition ObjectId : Type := string.

(** [binary.BigEndian]: [PutUint32] and [Uint32] on a slice of four bytes
    or more, [Uint16] on two. *)
Module BigEndian.

Definition PutUint32 (b : list Z) (v : Z) : list Z :=
  let b := update b 0 (byte (Z.shiftr v 24)) in
  let b := update b 1 (byte (Z.shiftr v 16)) in
  let b := update b 2 (byte (Z.shiftr v 8)) in
  update b 3 (byte v).

Definition Uint32 (b : list Z) : Z :=
  Z.lor (Z.lor (Z.lor (nth 3 b 0) (Z.shiftl (nth 2 b 0) 8))
               (Z.shiftl (nth 1 b 0) 16))
        (Z.shiftl (nth 0 b 0) 24).

Definition Uint16 (b : list Z) : Z :=
  Z.lor (nth 1 b 0) (Z.shiftl (nth 0 b 0) 8).

End BigEndian.

(** [copy(dst, src)]: as many bytes as the shorter of the two has. *)
Fixpoint copy (dst src : list Z) : list Z :=
  match dst, src with
  | _ :: dst', s :: src' => s :: copy dst' src'
  | _, _ => dst
  end.

Definition NewObjectIdSeconds (sec : Z) : ObjectId :=
  let b := repeat 0 12 in
  let b := BigEndian.PutUint32 b (uint32 sec) in
  stringOf b.

Definition Valid (id : ObjectId) : bool := len id =? 12.

Definition byteSlice (id : ObjectId) (start stop : nat) : result (list Z) :=
  if negb (len id =? 12)
  then Panic (PString ("Invalid ObjectId: " ++ id))
  else Ok (bytesOf (substring start (stop - start) id)).

Definition Timestamp (id : ObjectId) : result Z :=
  match byteSlice id 0 4 with
  | Ok b => Ok (int32 (BigEndian.Uint32 b))
  | Panic p => Panic p
  end.

Definition Machine (id : ObjectId) : result (list Z) := byteSlice id 4 7.

Definition Pid (id : ObjectId) : result Z :=
  match byteSlice id 7 9 with
  | Ok b => Ok (BigEndian.Uint16 b)
  | Panic p => Panic p
  end.

Definition Counter (id : ObjectId) : result Z :=
  match byteSlice id 9 12 with
  | Ok b =>
      Ok (int32 (Z.lor (Z.lor (uint32 (Z.shiftl (nth 0 b 0) 16))
                              (uint32 (Z.shiftl (nth 1 b 0) 8)))
                       (nth 2 b 0)))
  | Panic p => Panic p
  end.

(** The package variables the generator reads and writes. *)
Record globals : Type := mkGlobals {
  objectIdCounter : Z;
  machineId : option (list Z)
}.

(** What one call asks of the operating system: [time.Seconds()],
    [os.Hostname()] (a name or an error) and [os.Getpid()]. *)
Record process : Type := mkProcess {
  Seconds : Z;
  Hostname : string + string;
  Getpid : Z
}.

Section Generator.

(** [md5.New()], [Write] and [Sum()]: the digest of a byte sequence. *)
Variable md5 : list Z -> list Z.

Definition initMachineId (env : process) (g : globals) : result globals :=
  match Hostname env with
  | inr err => Panic (PString ("Failed to get hostname: " ++ err))
  | inl hostname =>
      let sum := copy [0; 0; 0] (md5 (bytesOf hostname)) in
      Ok (mkGlobals (objectIdCounter g) (Some sum))
  end.

(** [atomic.AddUint32(&objectIdCounter, 1)] is the step from
    [objectIdCounter g] to its successor modulo 2^32; calls that do not
    overlap are calls in sequence on the globals. *)
Definition NewObjectId (env : process) (g : globals)
    : result (ObjectId * globals) :=
  let b := repeat 0 12 in
  let b := BigEndian.PutUint32 b (uint32 (Seconds env)) in
  match (match machineId g with
         | None => initMachineId env g
         | Some _ => Ok g
         end) with
  | Panic p => Panic p
  | Ok g =>
      match machineId g with
      | Some (m0 :: m1 :: m2 :: _) =>
          let b := update b 4 m0 in
          let b := update b 5 m1 in
          let b := update b 6 m2 in
          let pid := Getpid env in
          let b := update b 7 (byte (Z.shiftr pid 8)) in
          let b := update b 8 (byte pid) in
          let i := uint32 (objectIdCounter g + 1) in
          let g := mkGlobals i (machineId g) in
          let b := update b 9 (byte (Z.shiftr i 16)) in
          let b := update b 10 (byte (Z.shiftr i 8)) in
          let b := update b 11 (byte i) in
          Ok (stringOf b, g)
      | _ => Panic (PRuntime "index out of range")
      end
  end.

End Generator.

(* ------------------------------------------------------------------ *)
(** ** Definitions used by the statements *)

(** The switch of [addDoc] on the kind of the value: the elements of the
    document. *)
Definition elements (v : value) : action :=
  match v with
  | VMap entries => addMap_of addElem entries
  | VStruct _ fields => addStruct_of addElem fields
  | VD d => addD_of addElem d
  | VSlice _ elems | VArray _ _ elems => addIndexed_of addElem 0 elems
  | _ => panic (PString "Can't marshal value as a BSON document")
  end.

(** The invariant of the induction over values; the third part carries the
    fact through an interface to the scope of a JS value. *)
Definition uniformAt (v : value) : Prop :=
  (forall name short, uniform (addElem name v short)) /\
  uniform (addDoc v) /\
  match v with
  | VInterface elem => uniform (addDoc elem)
  | _ => True
  end.

(** The machine id is set, or the host name can be had to set it. *)
Definition ready (env : process) (g : globals) : bool :=
  match machineId g, Hostname env with
  | Some m, _ => (3 <=? List.length m)%nat
  | None, inl _ => true
  | None, inr _ => false
  end.

(** The package variables when the process starts. *)
Definition fresh : globals := mkGlobals 0 None.

(** The structures of the specification's scenarios.
    [Person]: [struct { Name string "name"; Age int "age/c" }].
    [Guarded]: [struct { hidden int; Age int "age/c" }], whose first field
    is unexported.
    [Size]: the field [Size int64 "size/s"].
    [Measure]: [struct { F float64 "f/c"; S struct{} "s/c" }].
    [Sized]: [struct { hidden int64; Size int64 "size/s" }].
    [SizedConditional]: [struct { hidden int64; Size int64 "size/sc" }].
    [GuardedMeasure]: [struct { hidden int; F float64 "f/c" }]. *)
Definition Person (name : string) (age : Z) : value :=
  VStruct TStruct [(mkStructField "Name" "" "name", VString TString name);
                   (mkStructField "Age" "" "age/c", VInt TInt age)].

Definition Guarded (hidden age : Z) : value :=
  VStruct TStruct [(mkStructField "hidden" "main" "", VInt TInt hidden);
                   (mkStructField "Age" "" "age/c", VInt TInt age)].

Definition Size : StructField := mkStructField "Size" "" "size/s".

Definition Measure (bits : Z) : value :=
  VStruct TStruct [(mkStructField "F" "" "f/c", VFloat TFloat64 bits);
                   (mkStructField "S" "" "s/c", VStruct TStruct [])].

Definition Sized (hidden size : Z) : value :=
  VStruct TStruct [(mkStructField "hidden" "main" "", VInt TInt64 hidden);
                   (Size, VInt TInt64 size)].

Definition SizedConditional (hidden size : Z) : value :=
  VStruct TStruct [(mkStructField "hidden" "main" "", VInt TInt64 hidden);
                   (mkStructField "Size" "" "size/sc", VInt TInt64 size)].

Definition GuardedMeasure (hidden bits : Z) : value :=
  VStruct TStruct [(mkStructField "hidden" "main" "", VInt TInt hidden);
                   (mkStructField "F" "" "f/c", VFloat TFloat64 bits)].

(* ------------------------------------------------------------------ *)
(** ** Further definitions: the rest of the public API *)

(** [encoding/hex]: [EncodeToString] and [DecodeString]; [None] is the
    error ([OddLengthInputError] or [InvalidHexCharError]). *)
Module hex.

Definition hextable : string := "0123456789abcdef".

(** [hextable[i]] *)
Definition digit (i : Z) : ascii :=
  match String.get (Z.to_nat i) hextable with
  | Some c => c
  | None => Ascii.zero
  end.

Fixpoint Encode (src : list Z) : list ascii :=
  match src with
  | [] => []
  | v :: rest =>
      digit (Z.shiftr v 4) :: digit (Z.land v 0x0f) :: Encode rest
  end.

Definition EncodeToString (src : list Z) : string :=
  string_of_list_ascii (Encode src).

Definition fromHexChar (c : Z) : option Z :=
  if (48 <=? c) && (c <=? 57) then Some (c - 48)
  else if (97 <=? c) && (c <=? 102) then Some (c - 97 + 10)
  else if (65 <=? c) && (c <=? 70) then Some (c - 65 + 10)
  else None.

Fixpoint Decode (src : list Z) : option (list Z) :=
  match src with
  | [] => Some []
  | [_] => None
  | a :: b :: rest =>
      match fromHexChar a, fromHexChar b with
      | Some x, Some y =>
          match Decode rest with
          | Some dst => Some (byte (Z.lor (Z.shiftl x 4) y) :: dst)
          | None => None
          end
      | _, _ => None
      end
  end.

Definition DecodeString (s : string) : option (list Z) := Decode (bytesOf s).

End hex.

(** [ObjectIdHex]; the message leaves the quoting of [%q] out. *)
Definition ObjectIdHex (s : string) : result ObjectId :=
  match hex.DecodeString s with
  | Some d =>
      if negb (blen d =? 12)
      then Panic (PString ("Invalid input to ObjectIdHex: " ++ s))
      else Ok (stringOf d)
  | None => Panic (PString ("Invalid input to ObjectIdHex: " ++ s))
  end.

Definition ToString (id : ObjectId) : string :=
  hex.EncodeToString (bytesOf id).

(** [Now], from the result of [time.Nanoseconds()]. *)
Definition Now (nanoseconds : Z) : Z :=
  int64 (int64 (Z.quot nanoseconds 1000000) * 1000000).

(** [M], as far as it is looked up: the value under a key, if any. The
    values are what [reflect.ValueOf] makes of them. *)
Definition M : Type := string -> option value.

Definition emptyM : M := fun _ => None.

(** [m[k] = x] *)
Definition setM (m : M) (k : string) (x : value) : M :=
  fun k' => if String.eqb k' k then Some x else m k'.

(** The loop of [D.Map], and [D.Map]. *)
Fixpoint MapFrom (d : list (string * value)) (m : M) : M :=
  match d with
  | [] => m
  | (name, x) :: rest => MapFrom rest (setM m name x)
  end.

Definition D_Map (d : list (string * value)) : M := MapFrom d emptyM.

(** A run of calls of [NewObjectId], one per entry of [envs]. *)
Fixpoint NewObjectIds (md5 : list Z -> list Z) (envs : list process)
    (g : globals) : result (list ObjectId * globals) :=
  match envs with
  | [] => Ok ([], g)
  | env :: rest =>
      match NewObjectId md5 env g with
      | Panic p => Panic p
      | Ok (id, g1) =>
          match NewObjectIds md5 rest g1 with
          | Panic p => Panic p
          | Ok (ids, g2) => Ok (id :: ids, g2)
          end
      end
  end.

(* ------------------------------------------------------------------ *)
(** ** Further definitions used by the statements *)

(** An unsigned little-endian number. *)
Fixpoint leValue (d : list Z) : Z :=
  match d with
  | [] => 0
  | b :: rest => Z.lor b (Z.shiftl (leValue rest) 8)
  end.

(** An element: the kind, the name as a cstring, the payload. *)
Definition element (kind : Z) (name : string) (payload : list Z) : list Z :=
  kind :: bytesOf name ++ [0] ++ payload.

(** [framed name f]: what [f] appends is an element under [name]. *)
Definition framed (name : string) (f : action) : Prop :=
  forall e e', f e = Ok e' ->
    exists kind payload, out e' = out e ++ element kind name payload.

(** The pairs a sequence is encoded as: each element under its index. *)
Fixpoint indexedFrom (i : nat) (elems : list value) : list (string * value) :=
  match elems with
  | [] => []
  | x :: rest => (Itoa (Z.of_nat i), x) :: indexedFrom (S i) rest
  end.

(** A panic that [handleErr] turns into an error. *)
Definition recoverable (p : panicValue) : bool :=
  match p with
  | PRuntime _ => false
  | _ => true
  end.

Definition tame (f : action) : Prop :=
  (exists d, emits f d) \/ (exists p, fails f p /\ recoverable p = true).

(** No slice or addressable array in the value has bytes for elements
    without being convertible to [[]byte]. *)
Fixpoint plain (v : value) : bool :=
  match v with
  | VGetter _ bson => plain bson
  | VInterface elem | VPtr elem => plain elem
  | VMap entries | VD entries =>
      forallb (fun p => plain (snd p)) entries
  | VSlice t elems =>
      match t with SeqUint8 => false | _ => forallb plain elems end
  | VArray addressable t elems =>
      match t with
      | SeqUint8 => negb addressable && forallb plain elems
      | _ => forallb plain elems
      end
  | VStruct _ fields => forallb (fun p => plain (snd p)) fields
  | _ => true
  end.

Definition tameAt (v : value) : Prop :=
  (forall name short, tame (addElem name v short)) /\
  tame (addDoc v) /\
  match v with
  | VInterface elem => tame (addDoc elem)
  | _ => True
  end.

(** The schema entry of one exported field, from its tag and name alone. *)
Definition fieldInfoOf (i : nat) (field : StructField) : result fieldInfo :=
  let info := mkFieldInfo "" i false false in
  let s := LastIndex (Tag field) "/" in
  let parsed :=
    if s =? -1 then Ok (info, Tag field)
    else
      let n := String.length (Tag field) in
      let flags := substring (Z.to_nat (s + 1))
                             (n - Z.to_nat (s + 1)) (Tag field) in
      match parseFlags flags info with
      | Ok info' => Ok (info', substring 0 (Z.to_nat s) (Tag field))
      | Panic p => Panic p
      end in
  match parsed with
  | Panic p => Panic p
  | Ok (info, tag) =>
      let key := if String.eqb tag "" then ToLower (Name field) else tag in
      Ok (mkFieldInfo key (Num info) (Conditional info) (Short info))
  end.



(** The positions of the exported fields of a struct type, from [i] on. *)
Fixpoint exportedFrom (i : nat) (st : list StructField) : list nat :=
  match st with
  | [] => []
  | field :: rest =>
      if String.eqb (PkgPath field) "" then i :: exportedFrom (S i) rest
      else exportedFrom (S i) rest
  end.

(** The kind under which [addElem] embeds a value as a document. *)
Definition embeddedKind (v : value) : option Z :=
  match v with
  | VMap _ | VD _ | VSlice SeqDocElem _ | VStruct TStruct _ => Some 0x03
  | VSlice SeqOther _ | VArray _ SeqDocElem _ | VArray _ SeqOther _ =>
      Some 0x04
  | _ => None
  end.

(** Each field of a struct encoded by the entry of its own tag. *)
Fixpoint addOwnFields (i : nat) (fields : list (StructField * value))
    : action :=
  match fields with
  | [] => ret
  | (field, x) :: rest =>
      match fieldInfoOf i field with
      | Ok info =>
          (if Conditional info && isZero x
           then ret
           else addElem (Key info) x (Short info)) ;;
          addOwnFields (S i) rest
      | Panic p => panic p
      end
  end.

(* ================================================================== *)
(** * Properties *)

(* ------------------------------------------------------------------ *)
(** ** Composition of actions *)

Lemma emits_ret : emits ret [].
Proof. intros e. unfold ret. rewrite app_nil_r. destruct e; reflexivity. Qed.

Lemma emits_addBytes v : emits (addBytes v) v.
Proof. intros e. reflexivity. Qed.

Lemma emits_andThen f g d1 d2 :
  emits f d1 -> emits g d2 -> emits (f ;; g) (d1 ++ d2).
Proof.
  intros Hf Hg e. unfold andThen. rewrite Hf, Hg. cbn. now rewrite app_assoc.
Qed.

Lemma fails_andThen_l f g p : fails f p -> fails (f ;; g) p.
Proof. intros Hf e. unfold andThen. now rewrite Hf. Qed.

Lemma fails_andThen_r f g d p : emits f d -> fails g p -> fails (f ;; g) p.
Proof. intros Hf Hg e. unfold andThen. now rewrite Hf, Hg. Qed.

Lemma andThen_assoc f g h e : (f ;; g ;; h) e = ((f ;; g) ;; h) e.
Proof. unfold andThen. destruct (f e); reflexivity. Qed.

Lemma andThen_ret_r f e : (f ;; ret) e = f e.
Proof. unfold andThen, ret. destruct (f e); reflexivity. Qed.

Lemma emits_addInt32 v : emits (addInt32 v) (le32 (uint32 v)).
Proof. intros e. reflexivity. Qed.

Lemma emits_addInt64 v : emits (addInt64 v) (le64 (uint64 v)).
Proof. intros e. reflexivity. Qed.

Lemma emits_addCStr s : emits (addCStr s) (bytesOf s ++ [0]).
Proof. apply emits_andThen; apply emits_addBytes. Qed.

Lemma emits_addStr s :
  emits (addStr s) (le32 (uint32 (int32 (len s + 1))) ++ bytesOf s ++ [0]).
Proof. apply emits_andThen; [apply emits_addInt32 | apply emits_addCStr]. Qed.

Lemma emits_addElemName kind name :
  emits (addElemName kind name) (kind :: bytesOf name ++ [0]).
Proof.
  change (kind :: bytesOf name ++ [0]) with ([kind] ++ bytesOf name ++ [0]).
  repeat apply emits_andThen; apply emits_addBytes.
Qed.

Lemma emits_elem kind name f d :
  emits f d ->
  emits (addElemName kind name ;; f) (kind :: bytesOf name ++ [0] ++ d).
Proof.
  intros H.
  replace (kind :: bytesOf name ++ [0] ++ d)
    with ((kind :: bytesOf name ++ [0]) ++ d)
    by (cbn [app]; now rewrite <- app_assoc).
  apply emits_andThen; [apply emits_addElemName | exact H].
Qed.

Lemma emits_addBinary subtype v :
  emits (addBinary subtype v)
    (if subtype =? 0x02
     then le32 (uint32 (int32 (blen v + 4))) ++ [subtype] ++
          le32 (uint32 (int32 (blen v))) ++ v
     else le32 (uint32 (int32 (blen v))) ++ [subtype] ++ v).
Proof.
  unfold addBinary. destruct (subtype =? 2).
  - replace (le32 (uint32 (int32 (blen v + 4))) ++ [subtype] ++
             le32 (uint32 (int32 (blen v))) ++ v)
      with ((le32 (uint32 (int32 (blen v + 4))) ++ [subtype] ++
             le32 (uint32 (int32 (blen v)))) ++ v)
      by now rewrite <- !app_assoc.
    repeat apply emits_andThen;
      first [apply emits_addInt32 | apply emits_addBytes].
  - replace (le32 (uint32 (int32 (blen v))) ++ [subtype] ++ v)
      with ((le32 (uint32 (int32 (blen v))) ++ [subtype]) ++ v)
      by now rewrite <- !app_assoc.
    repeat apply emits_andThen;
      first [apply emits_addInt32 | apply emits_addBytes].
Qed.

Lemma uniform_emits f d : emits f d -> uniform f.
Proof. intros H. left. now exists d. Qed.

Lemma uniform_fails f p : fails f p -> uniform f.
Proof. intros H. right. now exists p. Qed.

Lemma uniform_panic p : uniform (panic p).
Proof. apply (uniform_fails _ p). intros e. reflexivity. Qed.

Lemma uniform_ret : uniform ret.
Proof. exact (uniform_emits _ _ emits_ret). Qed.

Lemma uniform_andThen f g : uniform f -> uniform g -> uniform (f ;; g).
Proof.
  intros [[d1 Hf] | [p Hf]] Hg.
  - destruct Hg as [[d2 Hg] | [p Hg]].
    + eapply uniform_emits, emits_andThen; eassumption.
    + eapply uniform_fails, fails_andThen_r; eassumption.
  - eapply uniform_fails, fails_andThen_l; eassumption.
Qed.

Lemma uniform_ext f g : (forall e, f e = g e) -> uniform f -> uniform g.
Proof.
  intros E [[d H] | [p H]]; [left; exists d | right; exists p];
    intros e; rewrite <- E; apply H.
Qed.

(* ------------------------------------------------------------------ *)
(** ** The length slot *)

Lemma update_app_r pre l k b :
  update (pre ++ l) (List.length pre + k) b = pre ++ update l k b.
Proof. induction pre; cbn; [reflexivity | now rewrite IHpre]. Qed.

Lemma store_slot pre l k b :
  (k < List.length l)%nat ->
  store (List.length pre + k) b (mkEncoder (pre ++ l))
  = Ok (mkEncoder (pre ++ update l k b)).
Proof.
  intros Hk. unfold store. cbn [out]. rewrite length_app.
  replace (_ <? _)%nat with true by (symmetry; apply Nat.ltb_lt; lia).
  now rewrite update_app_r.
Qed.

Lemma setInt32_slot pre b0 b1 b2 b3 rest v :
  setInt32 (List.length pre) v (mkEncoder (pre ++ b0 :: b1 :: b2 :: b3 :: rest))
  = Ok (mkEncoder (pre ++ le32 v ++ rest)).
Proof.
  unfold setInt32, andThen.
  do 4 (rewrite store_slot by (cbn; lia); cbn [update]).
  reflexivity.
Qed.

Lemma patch_slot pre b0 b1 b2 b3 rest :
  patch (List.length pre) (mkEncoder (pre ++ b0 :: b1 :: b2 :: b3 :: rest))
  = Ok (mkEncoder (pre ++ le32 (int32 (4 + blen rest)) ++ rest)).
Proof.
  unfold patch. cbn [out]. rewrite setInt32_slot.
  replace (Z.of_nat (List.length (pre ++ b0 :: b1 :: b2 :: b3 :: rest)) -
           Z.of_nat (List.length pre)) with (4 + blen rest); [reflexivity|].
  rewrite length_app. cbn [List.length]. unfold blen. lia.
Qed.

(** A length slot around a body that appends [b]. *)
Lemma emits_slot body b :
  emits body b ->
  emits (fun e => let (start, e1) := reserveInt32 e in
                  (body ;; patch start) e1)
        (le32 (int32 (4 + blen b)) ++ b).
Proof.
  intros Hb e. unfold reserveInt32, andThen. rewrite Hb. cbn [out].
  rewrite <- app_assoc. cbn [app]. now rewrite patch_slot.
Qed.

Lemma fails_slot body p :
  fails body p ->
  fails (fun e => let (start, e1) := reserveInt32 e in
                  (body ;; patch start) e1) p.
Proof. intros Hb e. unfold reserveInt32, andThen. now rewrite Hb. Qed.

Lemma uniform_slot body :
  uniform body ->
  uniform (fun e => let (start, e1) := reserveInt32 e in
                    (body ;; patch start) e1).
Proof.
  intros [[b H] | [p H]].
  - eapply uniform_emits, emits_slot, H.
  - eapply uniform_fails, fails_slot, H.
Qed.

(** A length slot around two actions in sequence, as [addDoc] and the JS
    case of [addElem] write it. *)
Lemma uniform_slot2 a b :
  uniform a -> uniform b ->
  uniform (fun e => let (start, e1) := reserveInt32 e in
                    (a ;; b ;;
                     (fun e2 =>
                        setInt32 start
                          (int32 (Z.of_nat (List.length (out e2)) -
                                  Z.of_nat start)) e2)) e1).
Proof.
  intros Ha Hb.
  apply uniform_ext with
    (f := fun e => let (start, e1) := reserveInt32 e in
                   ((a ;; b) ;; patch start) e1).
  - intros e. unfold reserveInt32. now rewrite <- andThen_assoc.
  - apply uniform_slot, uniform_andThen; assumption.
Qed.

(* ------------------------------------------------------------------ *)
(** ** Conversions between integer types *)

Lemma byte_range x : 0 <= byte x < 256.
Proof. unfold byte. apply Z.mod_pos_bound. lia. Qed.

Lemma lor_le32 v :
  Z.lor (Z.lor (Z.lor (byte v) (Z.shiftl (byte (Z.shiftr v 8)) 8))
               (Z.shiftl (byte (Z.shiftr v 16)) 16))
        (Z.shiftl (byte (Z.shiftr v 24)) 24) = v mod 2 ^ 32.
Proof.
  unfold byte. rewrite <- !Z.land_ones by lia. Z.bitblast.
Qed.

Lemma int32_mod v : int32 (v mod 2 ^ 32) = int32 v.
Proof. unfold int32. now rewrite Z.add_mod_idemp_l by lia. Qed.

Lemma int32_small v : - 2 ^ 31 <= v < 2 ^ 31 -> int32 v = v.
Proof. intros H. unfold int32. rewrite Z.mod_small; lia. Qed.

Lemma int32_idem v : int32 (int32 v) = int32 v.
Proof.
  apply int32_small. unfold int32.
  pose proof (Z.mod_pos_bound (v + 2 ^ 31) (2 ^ 32)). lia.
Qed.

Lemma uint32_int32 v : uint32 (int32 v) = uint32 v.
Proof.
  unfold uint32, int32.
  rewrite Zminus_mod, Z.mod_mod, <- Zminus_mod by lia.
  f_equal. lia.
Qed.

Lemma int32_uint32 s : MinInt32 <= s <= MaxInt32 -> int32 (uint32 s) = s.
Proof.
  unfold MinInt32, MaxInt32, uint32. intros H.
  rewrite int32_mod. apply int32_small. lia.
Qed.

Lemma readInt32_le32 v rest : readInt32 (le32 v ++ rest) = Some (int32 v).
Proof. cbn [le32 app readInt32]. now rewrite lor_le32, int32_mod. Qed.

(* ------------------------------------------------------------------ *)
(** ** The output does not depend on what was written before *)

Create HintDb enc.

#[local] Hint Resolve uniform_panic uniform_ret uniform_andThen uniform_slot
  uniform_slot2 : enc.
#[local] Hint Extern 1 (uniform (addBytes _)) =>
  eapply uniform_emits, emits_addBytes : enc.
#[local] Hint Extern 1 (uniform (addInt32 _)) =>
  eapply uniform_emits, emits_addInt32 : enc.
#[local] Hint Extern 1 (uniform (addInt64 _)) =>
  eapply uniform_emits, emits_addInt64 : enc.
#[local] Hint Extern 1 (uniform (addCStr _)) =>
  eapply uniform_emits, emits_addCStr : enc.
#[local] Hint Extern 1 (uniform (addStr _)) =>
  eapply uniform_emits, emits_addStr : enc.
#[local] Hint Extern 1 (uniform (addElemName _ _)) =>
  eapply uniform_emits, emits_addElemName : enc.
#[local] Hint Extern 1 (uniform (addBinary _ _)) =>
  eapply uniform_emits, emits_addBinary : enc.

(** [addDoc] after its loop, for a value that is not a Raw: a length slot
    around the elements and the terminator. *)
Lemma addDocBody_slot v e :
  v <> VInvalid -> isRaw v = false ->
  addDocBody v e =
  (let (start, e1) := reserveInt32 e in
   ((elements v ;; addBytes [0]) ;; patch start) e1).
Proof.
  intros Hv Hr. unfold addDocBody.
  destruct v; try congruence;
    try (cbn [addDocBody_of reserveInt32 elements];
         now rewrite <- andThen_assoc).
  destruct t; try discriminate;
    cbn [addDocBody_of reserveInt32 elements]; now rewrite <- andThen_assoc.
Qed.

Lemma uniform_addDocBody v : uniform (elements v) -> uniform (addDocBody v).
Proof.
  intros He.
  destruct (isRaw v) eqn:Hr.
  - destruct v; try discriminate. destruct t; try discriminate.
    unfold addDocBody. cbn [addDocBody_of].
    destruct (negb _ && negb _); auto with enc.
  - destruct v; try (apply uniform_panic);
      (eapply uniform_ext;
       [ intros e; symmetry; apply addDocBody_slot; [discriminate | exact Hr]
       | auto with enc ]).
Qed.

Section Loops.

Variable P : value -> Prop.
Hypothesis HP :
  forall v, P v -> forall name short, uniform (addElem name v short).

Lemma uniform_addMap entries :
  Forall (fun p => P (snd p)) entries -> uniform (addMap_of addElem entries).
Proof.
  induction 1 as [| [k x] l Hx _ IH]; cbn [addMap_of]; auto with enc.
Qed.

Lemma uniform_addD d :
  Forall (fun p => P (snd p)) d -> uniform (addD_of addElem d).
Proof.
  induction 1 as [| [k x] l Hx _ IH]; cbn [addD_of]; auto with enc.
Qed.

Lemma uniform_addIndexed elems :
  Forall P elems -> forall i, uniform (addIndexed_of addElem i elems).
Proof.
  induction 1 as [| x l Hx _ IH]; intros i; cbn [addIndexed_of];
    auto with enc.
Qed.

Lemma uniform_addStructFields fields :
  Forall (fun p => P (snd p)) fields ->
  forall infos, uniform (addStructFields_of addElem infos fields).
Proof.
  induction 1 as [| [f x] l Hx _ IH]; intros [| info infos];
    cbn [addStructFields_of]; auto with enc.
  apply uniform_andThen; [| apply IH].
  destruct (Conditional info && isZero x); auto with enc.
Qed.

Lemma uniform_addStruct fields :
  Forall (fun p => P (snd p)) fields -> uniform (addStruct_of addElem fields).
Proof.
  intros H. unfold addStruct_of.
  destruct (getStructFields (map fst fields)) as [[schema | err] | p];
    auto using uniform_addStructFields with enc.
Qed.

End Loops.

Lemma uniformAt_elem v :
  uniformAt v -> forall name short, uniform (addElem name v short).
Proof. intros H. apply H. Qed.

(** From every state the element encoder and the document encoder either
    append bytes that do not depend on the state, or panic. *)
Lemma uniform_all v : uniformAt v.
Proof.
  induction v using value_ind; unfold uniformAt.
  - repeat split; [intros; cbn; auto with enc | apply uniform_panic].
  - destruct IHv2 as (E & D & _). repeat split; [intros; apply E | exact D].
  - destruct IHv as (E & D & _). repeat split.
    + intros name short. destruct v; exact (E name short).
    + destruct v; try exact D;
        apply uniform_addDocBody, uniform_panic.
    + exact D.
  - destruct IHv as (E & D & _). repeat split; [intros; apply E | exact D].
  - repeat split; [| apply uniform_addDocBody, uniform_panic].
    intros name short. cbn [addElem]. destruct t; auto with enc.
    destruct (negb _); auto with enc.
  - repeat split; [| apply uniform_addDocBody, uniform_panic].
    intros name short. cbn [addElem]. auto with enc.
  - repeat split; [| apply uniform_addDocBody, uniform_panic].
    intros name short. cbn [addElem].
    destruct (int64 u <? 0); auto with enc.
    destruct (_ && _); auto with enc.
  - repeat split; [| apply uniform_addDocBody, uniform_panic].
    intros name short. cbn [addElem].
    destruct (Kind_leb _ _); auto with enc.
    destruct t; try (destruct (_ && _)); try (destruct (i =? MaxKey));
      auto with enc.
  - repeat split; [| apply uniform_addDocBody, uniform_panic].
    intros name short. cbn [addElem]. destruct b; auto with enc.
  - assert (D : uniform (addDoc (VMap entries))).
    { apply uniform_addDocBody. cbn [elements].
      apply uniform_addMap with (P := uniformAt);
        [exact uniformAt_elem | exact H]. }
    repeat split; [| exact D]. intros name short. cbn [addElem]. auto with enc.
  - assert (D : uniform (addDoc (VD elems))).
    { apply uniform_addDocBody. cbn [elements].
      apply uniform_addD with (P := uniformAt);
        [exact uniformAt_elem | exact H]. }
    repeat split; [| exact D]. intros name short. cbn [addElem]. auto with enc.
  - assert (D : uniform (addDoc (VSlice t elems))).
    { apply uniform_addDocBody. cbn [elements].
      apply uniform_addIndexed with (P := uniformAt);
        [exact uniformAt_elem | exact H]. }
    repeat split; [| exact D]. intros name short. cbn [addElem].
    destruct t; auto with enc.
  - assert (D : uniform (addDoc (VArray a t elems))).
    { apply uniform_addDocBody. cbn [elements].
      apply uniform_addIndexed with (P := uniformAt);
        [exact uniformAt_elem | exact H]. }
    repeat split; [| exact D]. intros name short. cbn [addElem].
    destruct t, a; auto with enc.
  - assert (D : uniform (addDoc (VStruct t fields))).
    { apply uniform_addDocBody. cbn [elements].
      apply uniform_addStruct with (P := uniformAt);
        [exact uniformAt_elem | exact H]. }
    repeat split; [| exact D]. intros name short. cbn [addElem].
    destruct t; auto with enc.
    destruct fields as [| f0 [| [f1 x1] rest]]; auto with enc.
    destruct x1; auto with enc.
    assert (S : uniform (addDoc x1)).
    { inversion H as [| ? ? _ H1]; subst. inversion H1 as [| ? ? H2 _]; subst.
      apply H2. }
    destruct x1; auto with enc;
      apply uniform_andThen; auto with enc;
      apply uniform_slot2; auto with enc.
  - repeat split;
      [intros; apply uniform_panic | apply uniform_addDocBody, uniform_panic].
Qed.

Lemma uniform_elements v : uniform (elements v).
Proof.
  assert (A : forall l : list value, Forall uniformAt l).
  { intros l. apply Forall_forall. intros x _. apply uniform_all. }
  assert (B : forall (K : Type) (l : list (K * value)),
             Forall (fun p => uniformAt (snd p)) l).
  { intros K l. apply Forall_forall. intros x _. apply uniform_all. }
  destruct v; cbn [elements]; try apply uniform_panic.
  - apply uniform_addMap with (P := uniformAt);
      [exact uniformAt_elem | apply B].
  - apply uniform_addD with (P := uniformAt);
      [exact uniformAt_elem | apply B].
  - apply uniform_addIndexed with (P := uniformAt);
      [exact uniformAt_elem | apply A].
  - apply uniform_addIndexed with (P := uniformAt);
      [exact uniformAt_elem | apply A].
  - apply uniform_addStruct with (P := uniformAt);
      [exact uniformAt_elem | apply B].
Qed.

(* ------------------------------------------------------------------ *)
(** ** Documents *)

Lemma addDoc_docRoot v : addDoc v = addDocBody (docRoot v).
Proof.
  induction v using value_ind; try reflexivity.
  - exact IHv2.
  - destruct v; try reflexivity. exact IHv.
  - exact IHv.
Qed.

(** What a document that the encoder builds looks like. *)
Lemma addDoc_shape v e e' :
  isRaw (docRoot v) = false ->
  addDoc v e = Ok e' ->
  exists b,
    emits (elements (docRoot v)) b /\
    emits (addDoc v) (le32 (int32 (4 + blen (b ++ [0]))) ++ b ++ [0]).
Proof.
  intros Hr H. rewrite addDoc_docRoot in *.
  destruct (docRoot v) eqn:Hroot; try discriminate H.
  all: match type of H with addDocBody ?r _ = _ =>
         assert (S : forall e, addDocBody r e =
                     (let (start, e1) := reserveInt32 e in
                      ((elements r ;; addBytes [0]) ;; patch start) e1))
           by (intros; apply addDocBody_slot; [discriminate | exact Hr]);
         destruct (uniform_elements r) as [[b Hb] | [p Hp]]
       end.
  all: try (exists b; split; [exact Hb |];
            intros e0; rewrite S;
            apply (emits_slot _ _
                     (emits_andThen _ _ _ _ Hb (emits_addBytes [0])))).
  all: exfalso; rewrite S in H;
       rewrite (fails_slot _ _ (fails_andThen_l _ _ _ Hp)) in H; discriminate.
Qed.

(** C1, as the specification states it, fails: a plain slice of integers is
    none of a mapping, a structure or a [D], and [Marshal] returns the
    document of its elements under the keys "0", "1", ... *)
Lemma Marshal_plain_slice :
  isDocumentValue (docRoot (VSlice SeqOther [VInt TInt 7])) = false /\
  Marshal (VSlice SeqOther [VInt TInt 7])
  = Ok ([12; 0; 0; 0; 16; 48; 0; 7; 0; 0; 0; 0], None).
Proof. split; reflexivity. Qed.

(** C1, amended. After Getter replacement and pointer unwrapping, [Marshal]
    returns an error and no bytes for every value whose kind is not map,
    struct, array or slice. For a value of one of these four kinds that is
    not a Raw, and whose elements encode to [b], it returns the document
    around [b]: every array and slice is accepted, not only [D]. *)
Theorem Marshal_document_kinds v :
  (isDocumentKind (Kind_of (docRoot v)) = false ->
   exists msg, Marshal v = Ok ([], Some msg)) /\
  (isDocumentKind (Kind_of (docRoot v)) = true ->
   isRaw (docRoot v) = false ->
   forall b, emits (elements (docRoot v)) b ->
   Marshal v = Ok (le32 (int32 (4 + blen (b ++ [0]))) ++ b ++ [0], None)).
Proof.
  unfold Marshal. rewrite addDoc_docRoot. split.
  - intros Hk. destruct (docRoot v); try discriminate Hk;
      eexists; reflexivity.
  - intros Hk Hr b Hb.
    rewrite addDocBody_slot; [| destruct (docRoot v); discriminate | exact Hr].
    now rewrite (emits_slot _ _ (emits_andThen _ _ _ _ Hb (emits_addBytes [0]))).
Qed.

Lemma Marshal_document_kinds_witness :
  (exists msg, Marshal (VInt TInt 7) = Ok ([], Some msg)) /\
  Marshal (VMap []) = Ok ([5; 0; 0; 0; 0], None).
Proof.
  split.
  - apply (proj1 (Marshal_document_kinds (VInt TInt 7))). reflexivity.
  - apply (proj2 (Marshal_document_kinds (VMap [])) eq_refl eq_refl []).
    exact emits_ret.
Defined.

(** C2, as the specification states it, fails: a Raw of kind 0x03 is spliced
    as it is, so the document [Marshal] returns for it need not carry its
    length nor end in zero. *)
Lemma Marshal_Raw_spliced :
  Marshal (Raw 0x03 [1]) = Ok ([1], None) /\ ~ wellFormed [1].
Proof.
  split; [reflexivity |]. intros [H _]. discriminate H.
Qed.

(** C2, amended. Every document the encoder builds itself, that is every
    call of [addDoc], at top level or for an embedded document, on a value
    that after Getter replacement and pointer unwrapping is not a Raw,
    appends bytes [d] that do not depend on the state; the first four bytes
    of [d] read as a little-endian int32 are the int32 conversion of its
    length, hence its length when that is below 2^31, and its last byte is
    zero. *)
Theorem addDoc_wellFormed v e e' :
  isRaw (docRoot v) = false ->
  addDoc v e = Ok e' ->
  exists d,
    out e' = out e ++ d /\
    (forall e0, addDoc v e0 = Ok (mkEncoder (out e0 ++ d))) /\
    readInt32 d = Some (int32 (blen d)) /\
    last d 1 = 0 /\
    (blen d < 2 ^ 31 -> wellFormed d).
Proof.
  intros Hr H. destruct (addDoc_shape v e e' Hr H) as (b & _ & Hd).
  set (d := le32 (int32 (4 + blen (b ++ [0]))) ++ b ++ [0]) in *.
  assert (L : blen d = 4 + blen (b ++ [0])).
  { unfold d, blen. rewrite !length_app. cbn [List.length le32]. lia. }
  assert (R : readInt32 d = Some (int32 (blen d))).
  { unfold d at 1. rewrite readInt32_le32, int32_idem. now rewrite L. }
  assert (T : last d 1 = 0).
  { unfold d. rewrite app_assoc. apply last_last. }
  exists d. repeat split; auto.
  - rewrite Hd in H. now inversion H.
  - rewrite R. f_equal. apply int32_small. unfold blen in *. lia.
Qed.

Lemma addDoc_wellFormed_witness :
  exists d,
    [0xAA; 9; 0; 0; 0; 8; 120; 0; 1; 0] = [0xAA] ++ d /\
    (forall e0, addDoc (VMap [("x", VInterface (VBool true))]) e0
                = Ok (mkEncoder (out e0 ++ d))) /\
    readInt32 d = Some (int32 (blen d)) /\
    last d 1 = 0 /\
    (blen d < 2 ^ 31 -> wellFormed d).
Proof.
  apply (addDoc_wellFormed (VMap [("x", VInterface (VBool true))])
           (mkEncoder [0xAA])
           (mkEncoder [0xAA; 9; 0; 0; 0; 8; 120; 0; 1; 0]));
    reflexivity.
Defined.

(* ------------------------------------------------------------------ *)
(** ** Elements *)

(** C3. [Marshal] of the document with the single key "x" bound to true
    returns exactly the nine bytes 09 00 00 00 08 78 00 01 00, for the
    mapping [M{"x": true}] and for the ordered [D{{"x", true}}] alike. *)
Theorem Marshal_x_true :
  Marshal (VMap [("x", VInterface (VBool true))])
  = Ok ([0x09; 0x00; 0x00; 0x00; 0x08; 0x78; 0x00; 0x01; 0x00], None) /\
  Marshal (VD [("x", VBool true)])
  = Ok ([0x09; 0x00; 0x00; 0x00; 0x08; 0x78; 0x00; 0x01; 0x00], None).
Proof. split; reflexivity. Qed.

(** The element of an int64 value under the short flag: kind 0x10 with a
    four-byte payload when the value lies in [MinInt32, MaxInt32], kind 0x12
    with an eight-byte payload otherwise. In a structure whose only field is
    [Size int64 "size/s"] the field is encoded so, as kind 0x10 for 42 and
    as kind 0x12 for 2^33. *)
Theorem int64_short_field name i e :
  (MinInt32 <= i <= MaxInt32 ->
   addElem name (VInt TInt64 i) true e
   = Ok (mkEncoder (out e ++ 0x10 :: bytesOf name ++ [0] ++ le32 (uint32 i)))) /\
  (~ MinInt32 <= i <= MaxInt32 ->
   addElem name (VInt TInt64 i) true e
   = Ok (mkEncoder (out e ++ 0x12 :: bytesOf name ++ [0] ++ le64 (uint64 i)))) /\
  addStruct [(Size, VInt TInt64 i)] e = addElem "size" (VInt TInt64 i) true e /\
  Marshal (VStruct TStruct [(Size, VInt TInt64 42)])
  = Ok ([15; 0; 0; 0; 0x10; 115; 105; 122; 101; 0; 42; 0; 0; 0; 0], None) /\
  Marshal (VStruct TStruct [(Size, VInt TInt64 (2 ^ 33))])
  = Ok ([19; 0; 0; 0; 0x12; 115; 105; 122; 101; 0;
         0; 0; 0; 0; 2; 0; 0; 0; 0], None).
Proof.
  split; [| split; [| split; [| split; reflexivity]]].
  - intros H. cbn [addElem intKind].
    change (Kind_leb Int64 Int32) with false. cbv iota.
    replace (true && (MinInt32 <=? i) && (i <=? MaxInt32)) with true
      by (symmetry; rewrite !andb_true_iff, !Z.leb_le; tauto).
    rewrite (emits_elem _ _ _ _ (emits_addInt32 _)).
    now rewrite uint32_int32.
  - intros H. cbn [addElem intKind].
    change (Kind_leb Int64 Int32) with false. cbv iota.
    replace (true && (MinInt32 <=? i) && (i <=? MaxInt32)) with false.
    + now rewrite (emits_elem _ _ _ _ (emits_addInt64 _)).
    + symmetry. apply not_true_is_false. intros T.
      rewrite !andb_true_iff, !Z.leb_le in T. tauto.
  - unfold addStruct, addStruct_of. cbn [map fst].
    change (getStructFields [Size])
      with (Ok (A := structFields + string)
              (inl (mkStructFields [("size", mkFieldInfo "size" 0 false true)]
                                   [mkFieldInfo "size" 0 false true]))).
    cbn [FieldList addStructFields_of Conditional Key Short andb].
    apply andThen_ret_r.
Qed.

Lemma int64_short_field_witness :
  addElem "size" (VInt TInt64 42) true (mkEncoder [])
  = Ok (mkEncoder ([] ++ 0x10 :: bytesOf "size" ++ [0] ++ le32 (uint32 42))) /\
  addElem "size" (VInt TInt64 (2 ^ 33)) true (mkEncoder [])
  = Ok (mkEncoder ([] ++ 0x12 :: bytesOf "size" ++ [0] ++
                   le64 (uint64 (2 ^ 33)))).
Proof.
  split.
  - apply (proj1 (int64_short_field "size" 42 (mkEncoder []))).
    unfold MinInt32, MaxInt32. lia.
  - apply (proj1 (proj2 (int64_short_field "size" (2 ^ 33) (mkEncoder [])))).
    unfold MinInt32, MaxInt32. lia.
Defined.

(** C4, at the inputs where the code departs from it. The schema of
    [struct { hidden int64; Size int64 "size/s" }] has the one entry "size",
    at list index 0 and field number 1, with the short flag. [addStruct]
    reads the field at the list index, the unexported [hidden], and writes
    it under the key "size": with [hidden] = 2^33 and [Size] = 42 the
    element has kind 0x12 and the payload 2^33, with [hidden] = 42 and
    [Size] = 2^33 it has kind 0x10 and the payload 42. With the tag
    "size/sc" and [hidden] = 0 the field [Size] = 42 is not written at
    all. *)
Theorem short_field_after_unexported :
  getStructFields [mkStructField "hidden" "main" ""; Size]
  = Ok (inl (mkStructFields [("size", mkFieldInfo "size" 1 false true)]
                            [mkFieldInfo "size" 1 false true])) /\
  Marshal (Sized (2 ^ 33) 42)
  = Ok ([19; 0; 0; 0; 0x12; 115; 105; 122; 101; 0;
         0; 0; 0; 0; 2; 0; 0; 0; 0], None) /\
  Marshal (Sized (2 ^ 33) 42) = Marshal (VD [("size", VInt TInt64 (2 ^ 33))]) /\
  Marshal (Sized 42 (2 ^ 33))
  = Ok ([15; 0; 0; 0; 0x10; 115; 105; 122; 101; 0; 42; 0; 0; 0; 0], None) /\
  Marshal (SizedConditional 0 42) = Ok ([5; 0; 0; 0; 0], None).
Proof. repeat split; reflexivity. Qed.

(** C5. A value of Go's plain [int] is always encoded as an element of kind
    0x10 whose payload is the low 32 bits of the value, whatever the value
    and the short flag, and the encoder does not panic. *)
Theorem plain_int_is_int32 name i short e :
  addElem name (VInt TInt i) short e
  = Ok (mkEncoder (out e ++ 0x10 :: bytesOf name ++ [0] ++ le32 (i mod 2 ^ 32))).
Proof.
  cbn [addElem intKind]. change (Kind_leb Int Int32) with true. cbv iota.
  rewrite (emits_elem _ _ _ _ (emits_addInt32 _)).
  now rewrite uint32_int32.
Qed.

Lemma BytesOfElems_bytes data : BytesOfElems (map (VUint TUint8) data) = data.
Proof.
  unfold BytesOfElems. rewrite map_map. cbn [UintOf]. apply map_id.
Qed.

(** C7. A Binary value of subtype 0x02 is written as int32(len+4), 0x02,
    int32(len) and the bytes; a Binary value of any other subtype as
    int32(len), the subtype and the bytes. *)
Theorem Binary_wire_form name kind data short e :
  (kind = 0x02 ->
   addElem name (Binary kind data) short e
   = Ok (mkEncoder (out e ++ 0x05 :: bytesOf name ++ [0] ++
                    le32 (uint32 (int32 (blen data + 4))) ++ [0x02] ++
                    le32 (uint32 (int32 (blen data))) ++ data))) /\
  (kind <> 0x02 ->
   addElem name (Binary kind data) short e
   = Ok (mkEncoder (out e ++ 0x05 :: bytesOf name ++ [0] ++
                    le32 (uint32 (int32 (blen data))) ++ [kind] ++ data))).
Proof.
  assert (E : addElem name (Binary kind data) short
              = addElemName 0x05 name ;; addBinary kind data).
  { unfold Binary, bytesValue. cbn [addElem Field nth_error UintOf].
    now rewrite BytesOfElems_bytes. }
  rewrite E.
  rewrite (emits_elem _ _ _ _ (emits_addBinary _ _)).
  split; intros H.
  - subst kind. reflexivity.
  - apply Z.eqb_neq in H. now rewrite H.
Qed.

Lemma Binary_wire_form_witness :
  addElem "b" (Binary 0x02 [7; 8]) false (mkEncoder [])
  = Ok (mkEncoder [5; 98; 0; 6; 0; 0; 0; 2; 2; 0; 0; 0; 7; 8]) /\
  addElem "b" (Binary 0x80 [7; 8]) false (mkEncoder [])
  = Ok (mkEncoder [5; 98; 0; 2; 0; 0; 0; 0x80; 7; 8]).
Proof.
  split.
  - apply (proj1 (Binary_wire_form "b" 0x02 [7; 8] false (mkEncoder []))).
    reflexivity.
  - apply (proj2 (Binary_wire_form "b" 0x80 [7; 8] false (mkEncoder []))).
    discriminate.
Defined.

(* ------------------------------------------------------------------ *)
(** ** Structures *)

Lemma parseFlags_Num flags : forall info info',
  parseFlags flags info = Ok info' -> Num info' = Num info.
Proof.
  induction flags as [| c rest IH]; intros info info' H; cbn in H.
  - now inversion H.
  - destruct (Ascii.eqb c "c"); [apply IH in H; exact H |].
    destruct (Ascii.eqb c "s"); [apply IH in H; exact H | discriminate].
Qed.

(** In a struct type without unexported fields the schema list is not
    compacted: its [i]-th entry is the entry of field [i], the field that
    [addStruct] reads for it. *)
Lemma getStructFieldsFrom_exported fields : forall i m l schema,
  Forall (fun f => PkgPath f = "") fields ->
  getStructFieldsFrom fields i m l = Ok (inl schema) ->
  map Num (FieldList schema) = map Num l ++ seq i (List.length fields).
Proof.
  induction fields as [| f rest IH]; intros i m l schema Hx H; cbn in H.
  - inversion H; subst. cbn. now rewrite app_nil_r.
  - inversion Hx as [| ? ? Hf Hrest]; subst. rewrite Hf in H. cbn in H.
    match type of H with
    | match ?parsed with _ => _ end = _ => destruct parsed as [[info tag] |] eqn:Hp
    end; [| discriminate].
    assert (N : Num info = i).
    { destruct (LastIndex (Tag f) "/" =? -1).
      - now inversion Hp.
      - destruct (parseFlags _ _) as [info' |] eqn:Hq; [| discriminate].
        inversion Hp; subst. now apply parseFlags_Num in Hq. }
    destruct (found _ m); [discriminate |].
    apply IH in H; [| exact Hrest]. rewrite H, map_app. cbn [map Num List.length seq].
    rewrite N, <- app_assoc. reflexivity.
Qed.

Lemma getStructFields_exported st schema :
  Forall (fun f => PkgPath f = "") st ->
  getStructFields st = Ok (inl schema) ->
  map Num (FieldList schema) = seq 0 (List.length st).
Proof.
  intros Hx H. exact (getStructFieldsFrom_exported st 0%nat [] [] schema Hx H).
Qed.

(** The scenario of the specification: with both fields exported, the zero
    [Age] is left out and the document is that of [{"name": "Ada"}]. *)
Example Marshal_Ada :
  Marshal (Person "Ada" 0)
  = Marshal (VD [("name", VString TString "Ada")]) /\
  Marshal (Person "Ada" 0)
  = Ok ([19; 0; 0; 0; 2; 110; 97; 109; 101; 0; 4; 0; 0; 0; 65; 100; 97; 0; 0],
        None).
Proof. split; reflexivity. Qed.

(** C6, at the input where the code departs from it. The schema of
    [struct { hidden int; Age int "age/c" }] has the one entry "age", at
    list index 0 and field number 1. [addStruct] reads the field at the
    list index, the unexported [hidden], finds it zero, and leaves out
    [Age] although it is 7: [Marshal] returns the empty document. *)
Theorem conditional_field_after_unexported :
  getStructFields [mkStructField "hidden" "main" "";
                   mkStructField "Age" "" "age/c"]
  = Ok (inl (mkStructFields [("age", mkFieldInfo "age" 1 true false)]
                            [mkFieldInfo "age" 1 true false])) /\
  isZero (VInt TInt 7) = false /\
  Marshal (Guarded 0 7) = Ok ([5; 0; 0; 0; 0], None) /\
  Marshal (Guarded 0 7) = Marshal (VMap []).
Proof. repeat split; reflexivity. Qed.

(** [isZero] is false for every floating-point value and every structure
    value, so the loop of [addStruct] encodes such a value whether or not
    the schema entry it is read for is conditional; the structure
    [struct { F float64 "f/c"; S struct{} "s/c" }], which has no unexported
    field, is encoded with both elements when [F] = 0.0 and [S] is empty. *)
Theorem isZero_float_struct :
  (forall t bits, isZero (VFloat t bits) = false) /\
  (forall t fields, isZero (VStruct t fields) = false) /\
  (forall info infos f t bits fields,
     addStructFields_of addElem (info :: infos) ((f, VFloat t bits) :: fields)
     = addElem (Key info) (VFloat t bits) (Short info) ;;
       addStructFields_of addElem infos fields) /\
  (forall info infos f t inner fields,
     addStructFields_of addElem (info :: infos) ((f, VStruct t inner) :: fields)
     = addElem (Key info) (VStruct t inner) (Short info) ;;
       addStructFields_of addElem infos fields) /\
  Marshal (Measure 0)
  = Marshal (VD [("f", VFloat TFloat64 0); ("s", VStruct TStruct [])]) /\
  Marshal (Measure 0)
  = Ok ([24; 0; 0; 0;
         0x01; 102; 0; 0; 0; 0; 0; 0; 0; 0; 0;
         0x03; 115; 0; 5; 0; 0; 0; 0;
         0], None).
Proof.
  assert (F : forall t bits, isZero (VFloat t bits) = false)
    by (intros [] bits; reflexivity).
  split; [exact F |].
  split; [reflexivity |].
  split.
  { intros info infos f t bits fields. cbn [addStructFields_of].
    now rewrite F, andb_false_r. }
  split.
  { intros info infos f t inner fields. cbn [addStructFields_of].
    change (isZero (VStruct t inner)) with false.
    now rewrite andb_false_r. }
  split; reflexivity.
Qed.

(** C10, at the input where the code departs from it. The schema of
    [struct { hidden int; F float64 "f/c" }] has the one entry "f", at list
    index 0 and field number 1, conditional. [isZero] is false of every
    float, yet [addStruct] reads the field at the list index, the
    unexported [hidden], finds it zero and leaves the conditional float
    field out, whether [F] is 0.0 or 1.5: [Marshal] returns the empty
    document. *)
Theorem conditional_float_after_unexported :
  getStructFields [mkStructField "hidden" "main" "";
                   mkStructField "F" "" "f/c"]
  = Ok (inl (mkStructFields [("f", mkFieldInfo "f" 1 true false)]
                            [mkFieldInfo "f" 1 true false])) /\
  isZero (VFloat TFloat64 0) = false /\
  isZero (VInt TInt 0) = true /\
  Marshal (GuardedMeasure 0 0) = Ok ([5; 0; 0; 0; 0], None) /\
  Marshal (GuardedMeasure 0 0x3FF8000000000000) = Ok ([5; 0; 0; 0; 0], None).
Proof. repeat split; reflexivity. Qed.

(* ------------------------------------------------------------------ *)
(** ** ObjectId *)

Lemma length_stringOf b : String.length (stringOf b) = List.length b.
Proof. induction b; cbn; [reflexivity | now rewrite <- IHb]. Qed.

Lemma char_byte x :
  0 <= x < 256 -> Z.of_N (N_of_ascii (ascii_of_N (Z.to_N x))) = x.
Proof. intros H. rewrite N_ascii_embedding by lia. lia. Qed.

Lemma bytesOf_stringOf b :
  Forall (fun x => 0 <= x < 256) b -> bytesOf (stringOf b) = b.
Proof.
  unfold bytesOf, stringOf. rewrite list_ascii_of_string_of_list_ascii, map_map.
  induction 1 as [| x l Hx _ IH]; cbn [map]; [reflexivity |].
  now rewrite char_byte, IH.
Qed.

Lemma substring_stringOf n m b :
  substring n m (stringOf b) = stringOf (firstn m (skipn n b)).
Proof.
  revert n m. induction b as [| x b IH]; intros [| n] [| m];
    cbn; try reflexivity; try apply IH.
  f_equal. exact (IH 0%nat m).
Qed.

Lemma byteSlice_stringOf b start stop :
  List.length b = 12%nat ->
  Forall (fun x => 0 <= x < 256) (firstn (stop - start) (skipn start b)) ->
  byteSlice (stringOf b) start stop = Ok (firstn (stop - start) (skipn start b)).
Proof.
  intros L H. unfold byteSlice, len. rewrite length_stringOf, L.
  change (Z.of_nat 12 =? 12) with true. cbn [negb].
  now rewrite substring_stringOf, bytesOf_stringOf.
Qed.

Lemma be32_join u :
  0 <= u < 2 ^ 32 ->
  Z.lor (Z.lor (Z.lor (byte u) (Z.shiftl (byte (Z.shiftr u 8)) 8))
               (Z.shiftl (byte (Z.shiftr u 16)) 16))
        (Z.shiftl (byte (Z.shiftr u 24)) 24) = u.
Proof. intros H. rewrite lor_le32. apply Z.mod_small, H. Qed.

(** C8. For every int32 [s], [NewObjectIdSeconds s] is twelve bytes long,
    its first four bytes hold [s] big-endian, its last eight bytes are
    zero, and its [Timestamp] is [s]. *)
Theorem NewObjectIdSeconds_Timestamp s :
  MinInt32 <= s <= MaxInt32 ->
  len (NewObjectIdSeconds s) = 12 /\
  bytesOf (NewObjectIdSeconds s)
  = [byte (Z.shiftr (uint32 s) 24); byte (Z.shiftr (uint32 s) 16);
     byte (Z.shiftr (uint32 s) 8); byte (uint32 s);
     0; 0; 0; 0; 0; 0; 0; 0] /\
  Timestamp (NewObjectIdSeconds s) = Ok s.
Proof.
  intros Hs. unfold NewObjectIdSeconds, BigEndian.PutUint32.
  cbn [repeat update].
  set (b := [byte (Z.shiftr (uint32 s) 24); byte (Z.shiftr (uint32 s) 16);
             byte (Z.shiftr (uint32 s) 8); byte (uint32 s);
             0; 0; 0; 0; 0; 0; 0; 0]).
  assert (R : Forall (fun x => 0 <= x < 256) b).
  { unfold b. repeat constructor; try apply byte_range; lia. }
  split; [| split].
  - unfold len. now rewrite length_stringOf.
  - now apply bytesOf_stringOf.
  - unfold Timestamp. rewrite byteSlice_stringOf; [| reflexivity |].
    + subst b. cbn [firstn skipn Nat.sub]. unfold BigEndian.Uint32. cbn [nth].
      rewrite be32_join by (unfold uint32; apply Z.mod_pos_bound; lia).
      now rewrite int32_uint32.
    + subst b. cbn [firstn skipn Nat.sub].
      repeat constructor; apply byte_range.
Qed.

Lemma NewObjectIdSeconds_Timestamp_witness :
  Timestamp (NewObjectIdSeconds 1300816219) = Ok 1300816219.
Proof.
  apply (NewObjectIdSeconds_Timestamp 1300816219).
  unfold MinInt32, MaxInt32. lia.
Defined.

Lemma counter_join i :
  Z.lor (Z.lor (uint32 (Z.shiftl (byte (Z.shiftr i 16)) 16))
               (uint32 (Z.shiftl (byte (Z.shiftr i 8)) 8)))
        (byte i) = i mod 2 ^ 24.
Proof.
  unfold uint32, byte. rewrite <- !Z.land_ones by lia. Z.bitblast.
Qed.

Lemma length_copy dst src : List.length (copy dst src) = List.length dst.
Proof.
  revert src. induction dst as [| d dst IH]; intros [| s src]; cbn;
    try reflexivity. now rewrite IH.
Qed.

Section GeneratorFacts.

Variable md5 : list Z -> list Z.

(** One call: it returns when the machine id is or can be set, steps the
    counter, and stores the low 24 bits of the new count in the id. *)
Lemma NewObjectId_step env g :
  ready env g = true ->
  exists id g',
    NewObjectId md5 env g = Ok (id, g') /\
    objectIdCounter g' = uint32 (objectIdCounter g + 1) /\
    (forall env', ready env' g' = true) /\
    Counter id = Ok (objectIdCounter g' mod 2 ^ 24).
Proof.
  intros Hr. unfold ready in Hr. unfold NewObjectId, initMachineId.
  assert (M : exists m0 m1 m2 rest,
             (match machineId g with
              | None =>
                  match Hostname env with
                  | inl hostname =>
                      Ok (mkGlobals (objectIdCounter g)
                            (Some (copy [0; 0; 0] (md5 (bytesOf hostname)))))
                  | inr err =>
                      Panic (PString ("Failed to get hostname: " ++ err))
                  end
              | Some _ => Ok g
              end)
             = Ok (mkGlobals (objectIdCounter g)
                             (Some (m0 :: m1 :: m2 :: rest)))).
  { destruct g as [c [m |]]; cbn [machineId objectIdCounter] in *.
    - destruct m as [| m0 [| m1 [| m2 rest]]]; try discriminate Hr.
      now exists m0, m1, m2, rest.
    - destruct (Hostname env) as [h | err]; try discriminate Hr.
      pose proof (length_copy [0; 0; 0] (md5 (bytesOf h))) as L.
      destruct (copy [0; 0; 0] (md5 (bytesOf h)))
        as [| m0 [| m1 [| m2 rest]]]; try discriminate L.
      now exists m0, m1, m2, rest. }
  destruct M as (m0 & m1 & m2 & rest & M). rewrite M.
  cbn [machineId objectIdCounter repeat update BigEndian.PutUint32].
  eexists. eexists. split; [reflexivity |].
  cbn [objectIdCounter machineId]. split; [reflexivity |].
  split; [intros env'; reflexivity |].
  set (i := uint32 (objectIdCounter g + 1)).
  unfold Counter.
  rewrite byteSlice_stringOf; [| reflexivity |].
  - cbn [firstn skipn Nat.sub nth].
    rewrite counter_join. f_equal. apply int32_small.
    pose proof (Z.mod_pos_bound i (2 ^ 24)). lia.
  - cbn [firstn skipn Nat.sub]. repeat constructor; apply byte_range.
Qed.

(** C9. In a process whose machine id is set or can be set, two calls of
    [NewObjectId] in sequence both return, and the [Counter] of the second
    id is the [Counter] of the first plus one, modulo 2^24. *)
Theorem NewObjectId_consecutive env1 env2 g :
  ready env1 g = true ->
  exists id1 g1 id2 g2 c1 c2,
    NewObjectId md5 env1 g = Ok (id1, g1) /\
    NewObjectId md5 env2 g1 = Ok (id2, g2) /\
    Counter id1 = Ok c1 /\
    Counter id2 = Ok c2 /\
    c2 = (c1 + 1) mod 2 ^ 24.
Proof.
  intros Hr.
  destruct (NewObjectId_step env1 g Hr) as (id1 & g1 & E1 & N1 & R1 & C1).
  destruct (NewObjectId_step env2 g1 (R1 env2))
    as (id2 & g2 & E2 & N2 & _ & C2).
  exists id1, g1, id2, g2. eexists. eexists.
  repeat (split; [eassumption |]).
  rewrite N2. unfold uint32.
  rewrite Z.mod_mod_divide by (exists (2 ^ 8); reflexivity).
  now rewrite Z.add_mod_idemp_l by lia.
Qed.

End GeneratorFacts.

Lemma NewObjectId_consecutive_witness :
  exists id1 g1 id2 g2 c1 c2,
    NewObjectId (fun _ => [1; 2; 3; 4])
      (mkProcess 1300816219 (inl "host") 4660) fresh = Ok (id1, g1) /\
    NewObjectId (fun _ => [1; 2; 3; 4])
      (mkProcess 1300816220 (inr "gone") 4660) g1 = Ok (id2, g2) /\
    Counter id1 = Ok c1 /\
    Counter id2 = Ok c2 /\
    c2 = (c1 + 1) mod 2 ^ 24.
Proof.
  apply (NewObjectId_consecutive (fun _ => [1; 2; 3; 4])
           (mkProcess 1300816219 (inl "host") 4660)
           (mkProcess 1300816220 (inr "gone") 4660) fresh).
  reflexivity.
Defined.

(* ------------------------------------------------------------------ *)
(** ** Elements, whatever the value *)

(** X1. What [addElem] appends for a value, or the panic it ends in, is the
    same from every encoder state, and the bytes written before are kept. *)
Theorem addElem_position_independent name v short e :
  (forall e', addElem name v short e = Ok e' ->
     exists d, out e' = out e ++ d /\
               forall e0, addElem name v short e0
                          = Ok (mkEncoder (out e0 ++ d))) /\
  (forall p, addElem name v short e = Panic p ->
     forall e0, addElem name v short e0 = Panic p).
Proof.
  destruct (proj1 (uniform_all v) name short) as [[d H] | [p H]]; split.
  - intros e' E. rewrite H in E. inversion E; subst. now exists d.
  - intros q E. rewrite H in E. discriminate.
  - intros e' E. rewrite H in E. discriminate.
  - intros q E e0. rewrite H in E. inversion E; subst. apply H.
Qed.

Lemma addElem_position_independent_witness :
  exists d, [0xAA; 8; 120; 0; 1] = [0xAA] ++ d /\
            forall e0, addElem "x" (VBool true) false e0
                       = Ok (mkEncoder (out e0 ++ d)).
Proof.
  apply (proj1 (addElem_position_independent "x" (VBool true) false
                  (mkEncoder [0xAA])) (mkEncoder [0xAA; 8; 120; 0; 1])).
  reflexivity.
Defined.

Lemma framed_named kind name f :
  uniform f -> framed name (addElemName kind name ;; f).
Proof.
  intros [[d H] | [p H]] e e' E.
  - rewrite (emits_elem _ _ _ _ H) in E. inversion E; subst.
    now exists kind, d.
  - rewrite (fails_andThen_r _ _ _ _ (emits_addElemName kind name) H) in E.
    discriminate.
Qed.

Lemma framed_addElemName kind name : framed name (addElemName kind name).
Proof.
  intros e e' E. rewrite emits_addElemName in E. inversion E; subst.
  exists kind, []. reflexivity.
Qed.

Lemma framed_panic name p : framed name (panic p).
Proof. intros e e' E. discriminate. Qed.

Create HintDb frame.

#[local] Hint Resolve framed_named framed_addElemName framed_panic
  uniform_panic uniform_ret uniform_andThen uniform_slot2 : frame.
#[local] Hint Extern 1 (uniform (addBytes _)) =>
  eapply uniform_emits, emits_addBytes : frame.
#[local] Hint Extern 1 (uniform (addInt32 _)) =>
  eapply uniform_emits, emits_addInt32 : frame.
#[local] Hint Extern 1 (uniform (addInt64 _)) =>
  eapply uniform_emits, emits_addInt64 : frame.
#[local] Hint Extern 1 (uniform (addCStr _)) =>
  eapply uniform_emits, emits_addCStr : frame.
#[local] Hint Extern 1 (uniform (addStr _)) =>
  eapply uniform_emits, emits_addStr : frame.
#[local] Hint Extern 1 (uniform (addBinary _ _)) =>
  eapply uniform_emits, emits_addBinary : frame.
#[local] Hint Extern 1 (uniform (addDoc_of addElem ?v)) =>
  exact (proj1 (proj2 (uniform_all v))) : frame.

(** X2. Whatever the value, what [addElem] appends when it returns is one
    element: a kind byte, the name followed by a zero byte, and a
    payload. *)
Theorem addElem_framed v : forall name short e e',
  addElem name v short e = Ok e' ->
  exists kind payload, out e' = out e ++ element kind name payload.
Proof.
  change (forall name short, framed name (addElem name v short)).
  induction v using value_ind; intros name short; cbn [addElem];
    auto with frame.
  - destruct v; exact (IHv name short).
  - destruct t; auto with frame. destruct (negb _); auto with frame.
  - destruct (int64 u <? 0); auto with frame.
    destruct (_ && _); auto with frame.
  - destruct (Kind_leb _ _); auto with frame.
    destruct t; try (destruct (_ && _)); try (destruct (i =? MaxKey));
      auto with frame.
  - destruct b; auto with frame.
  - destruct t; auto with frame.
  - destruct t, a; auto with frame.
  - destruct t; auto with frame.
    destruct fields as [| f0 [| [f1 x1] rest]]; auto with frame.
    destruct x1; auto with frame.
    pose proof (proj1 (proj2 (uniform_all x1))) as S.
    destruct x1; auto with frame.
Qed.

Lemma addElem_framed_witness :
  exists kind payload,
    [8; 120; 0; 1] = [] ++ element kind "x" payload.
Proof.
  apply (addElem_framed (VBool true) "x" false (mkEncoder [])
           (mkEncoder [8; 120; 0; 1])).
  reflexivity.
Defined.

(* ------------------------------------------------------------------ *)
(** ** Panics that [Marshal] recovers from *)

Lemma tame_emits f d : emits f d -> tame f.
Proof. intros H. left. now exists d. Qed.

Lemma tame_panic p : recoverable p = true -> tame (panic p).
Proof. intros H. right. exists p. split; [intros e; reflexivity | exact H]. Qed.

Lemma tame_ret : tame ret.
Proof. exact (tame_emits _ _ emits_ret). Qed.

Lemma tame_andThen f g : tame f -> tame g -> tame (f ;; g).
Proof.
  intros [[d1 Hf] | (p & Hf & Hp)] Hg.
  - destruct Hg as [[d2 Hg] | (p & Hg & Hp)].
    + eapply tame_emits, emits_andThen; eassumption.
    + right. exists p. split; [eapply fails_andThen_r; eassumption | exact Hp].
  - right. exists p. split; [eapply fails_andThen_l; eassumption | exact Hp].
Qed.

Lemma tame_ext f g : (forall e, f e = g e) -> tame f -> tame g.
Proof.
  intros E [[d H] | (p & H & Hp)]; [left; exists d | right; exists p; split;
    [| exact Hp]]; intros e; rewrite <- E; apply H.
Qed.

Lemma tame_slot body :
  tame body ->
  tame (fun e => let (start, e1) := reserveInt32 e in
                 (body ;; patch start) e1).
Proof.
  intros [[b H] | (p & H & Hp)].
  - eapply tame_emits, emits_slot, H.
  - right. exists p. split; [apply fails_slot, H | exact Hp].
Qed.

Lemma tame_slot2 a b :
  tame a -> tame b ->
  tame (fun e => let (start, e1) := reserveInt32 e in
                 (a ;; b ;;
                  (fun e2 =>
                     setInt32 start
                       (int32 (Z.of_nat (List.length (out e2)) -
                               Z.of_nat start)) e2)) e1).
Proof.
  intros Ha Hb.
  apply tame_ext with
    (f := fun e => let (start, e1) := reserveInt32 e in
                   ((a ;; b) ;; patch start) e1).
  - intros e. unfold reserveInt32. now rewrite <- andThen_assoc.
  - apply tame_slot, tame_andThen; assumption.
Qed.

Create HintDb tamed.

#[local] Hint Resolve tame_ret tame_andThen tame_slot tame_slot2 : tamed.
#[local] Hint Extern 1 (tame (panic (PString _))) =>
  apply tame_panic; reflexivity : tamed.
#[local] Hint Extern 1 (tame (panic (PError _))) =>
  apply tame_panic; reflexivity : tamed.
#[local] Hint Extern 1 (tame (addBytes _)) =>
  eapply tame_emits, emits_addBytes : tamed.
#[local] Hint Extern 1 (tame (addInt32 _)) =>
  eapply tame_emits, emits_addInt32 : tamed.
#[local] Hint Extern 1 (tame (addInt64 _)) =>
  eapply tame_emits, emits_addInt64 : tamed.
#[local] Hint Extern 1 (tame (addCStr _)) =>
  eapply tame_emits, emits_addCStr : tamed.
#[local] Hint Extern 1 (tame (addStr _)) =>
  eapply tame_emits, emits_addStr : tamed.
#[local] Hint Extern 1 (tame (addElemName _ _)) =>
  eapply tame_emits, emits_addElemName : tamed.
#[local] Hint Extern 1 (tame (addBinary _ _)) =>
  eapply tame_emits, emits_addBinary : tamed.

Lemma tame_addDocBody v : tame (elements v) -> tame (addDocBody v).
Proof.
  intros He.
  destruct (isRaw v) eqn:Hr.
  - destruct v; try discriminate. destruct t; try discriminate.
    unfold addDocBody. cbn [addDocBody_of].
    destruct (negb _ && negb _); auto with tamed.
  - destruct v; try (apply tame_panic; reflexivity);
      (eapply tame_ext;
       [ intros e; symmetry; apply addDocBody_slot; [discriminate | exact Hr]
       | auto with tamed ]).
Qed.

Lemma tame_no_document : 
  tame (panic (PString "Can't marshal value as a BSON document")).
Proof. apply tame_panic. reflexivity. Qed.

Section TameLoops.

Variable P : value -> Prop.
Hypothesis HP :
  forall v, P v -> forall name short, tame (addElem name v short).

Lemma tame_addMap entries :
  Forall (fun p => P (snd p)) entries -> tame (addMap_of addElem entries).
Proof.
  induction 1 as [| [k x] l Hx _ IH]; cbn [addMap_of]; auto with tamed.
Qed.

Lemma tame_addD d :
  Forall (fun p => P (snd p)) d -> tame (addD_of addElem d).
Proof.
  induction 1 as [| [k x] l Hx _ IH]; cbn [addD_of]; auto with tamed.
Qed.

Lemma tame_addIndexed elems :
  Forall P elems -> forall i, tame (addIndexed_of addElem i elems).
Proof.
  induction 1 as [| x l Hx _ IH]; intros i; cbn [addIndexed_of];
    auto with tamed.
Qed.

Lemma tame_addStructFields fields :
  Forall (fun p => P (snd p)) fields ->
  forall infos, tame (addStructFields_of addElem infos fields).
Proof.
  induction 1 as [| [f x] l Hx _ IH]; intros [| info infos];
    cbn [addStructFields_of]; auto with tamed.
  apply tame_andThen; [| apply IH].
  destruct (Conditional info && isZero x); auto with tamed.
Qed.

End TameLoops.

Lemma parseFlags_recoverable flags : forall info p,
  parseFlags flags info = Panic p -> recoverable p = true.
Proof.
  induction flags as [| c rest IH]; intros info p H; cbn in H;
    [discriminate |].
  destruct (Ascii.eqb c "c"); [exact (IH _ _ H) |].
  destruct (Ascii.eqb c "s"); [exact (IH _ _ H) |].
  now inversion H.
Qed.

Lemma getStructFieldsFrom_recoverable st : forall i m l p,
  getStructFieldsFrom st i m l = Panic p -> recoverable p = true.
Proof.
  induction st as [| f rest IH]; intros i m l p H; cbn in H;
    [discriminate |].
  destruct (negb _); [exact (IH _ _ _ _ H) |].
  destruct (LastIndex (Tag f) "/" =? -1).
  - destruct (found _ m); [discriminate | exact (IH _ _ _ _ H)].
  - destruct (parseFlags _ _) as [info' |] eqn:Hq.
    + destruct (found _ m); [discriminate | exact (IH _ _ _ _ H)].
    + inversion H; subst. exact (parseFlags_recoverable _ _ _ Hq).
Qed.

Lemma tame_addStruct (P : value -> Prop) fields :
  (forall v, P v -> forall name short, tame (addElem name v short)) ->
  Forall (fun p => P (snd p)) fields -> tame (addStruct_of addElem fields).
Proof.
  intros HP H. unfold addStruct_of.
  destruct (getStructFields (map fst fields)) as [[schema | err] | p] eqn:E.
  - now apply tame_addStructFields with (P := P).
  - apply tame_panic. reflexivity.
  - apply tame_panic. exact (getStructFieldsFrom_recoverable _ _ _ _ _ E).
Qed.

Lemma Forall_plain (K : Type) (P : value -> Prop) (l : list (K * value)) :
  Forall (fun p => plain (snd p) = true -> P (snd p)) l ->
  forallb (fun p => plain (snd p)) l = true ->
  Forall (fun p => P (snd p)) l.
Proof.
  induction 1 as [| x l Hx _ IH]; cbn [forallb]; intros H; constructor;
    apply andb_true_iff in H; destruct H; auto.
Qed.

Lemma Forall_plain_list (P : value -> Prop) (l : list value) :
  Forall (fun x => plain x = true -> P x) l ->
  forallb plain l = true -> Forall P l.
Proof.
  induction 1 as [| x l Hx _ IH]; cbn [forallb]; intros H; constructor;
    apply andb_true_iff in H; destruct H; auto.
Qed.

Lemma tameAt_elem v :
  tameAt v -> forall name short, tame (addElem name v short).
Proof. intros H. apply H. Qed.

Lemma tame_all v : plain v = true -> tameAt v.
Proof.
  induction v using value_ind; intros Hp; unfold tameAt; cbn [plain] in Hp.
  - repeat split; [intros; cbn; auto with tamed | apply tame_panic; reflexivity].
  - destruct (IHv2 Hp) as (E & D & _).
    repeat split; [intros; apply E | exact D].
  - destruct (IHv Hp) as (E & D & _). repeat split.
    + intros name short. destruct v; exact (E name short).
    + destruct v; try exact D; apply tame_addDocBody, tame_no_document.
    + exact D.
  - destruct (IHv Hp) as (E & D & _).
    repeat split; [intros; apply E | exact D].
  - repeat split; [| apply tame_addDocBody, tame_no_document].
    intros name short. cbn [addElem]. destruct t; auto with tamed.
    destruct (negb _); auto with tamed.
  - repeat split; [| apply tame_addDocBody, tame_no_document].
    intros name short. cbn [addElem]. auto with tamed.
  - repeat split; [| apply tame_addDocBody, tame_no_document].
    intros name short. cbn [addElem].
    destruct (int64 u <? 0); auto with tamed.
    destruct (_ && _); auto with tamed.
  - repeat split; [| apply tame_addDocBody, tame_no_document].
    intros name short. cbn [addElem].
    destruct (Kind_leb _ _); auto with tamed.
    destruct t; try (destruct (_ && _)); try (destruct (i =? MaxKey));
      auto with tamed.
  - repeat split; [| apply tame_addDocBody, tame_no_document].
    intros name short. cbn [addElem]. destruct b; auto with tamed.
  - assert (D : tame (addDoc (VMap entries))).
    { apply tame_addDocBody. cbn [elements].
      apply tame_addMap with (P := tameAt);
        [exact tameAt_elem | now apply Forall_plain]. }
    repeat split; [| exact D]. intros name short. cbn [addElem].
    auto with tamed.
  - assert (D : tame (addDoc (VD elems))).
    { apply tame_addDocBody. cbn [elements].
      apply tame_addD with (P := tameAt);
        [exact tameAt_elem | now apply Forall_plain]. }
    repeat split; [| exact D]. intros name short. cbn [addElem].
    auto with tamed.
  - assert (Hl : forallb plain elems = true) by (destruct t; congruence).
    assert (D : tame (addDoc (VSlice t elems))).
    { apply tame_addDocBody. cbn [elements].
      apply tame_addIndexed with (P := tameAt);
        [exact tameAt_elem | now apply Forall_plain_list]. }
    repeat split; [| exact D]. intros name short. cbn [addElem].
    destruct t; try discriminate Hp; auto with tamed.
  - assert (Hl : forallb plain elems = true).
    { destruct t; try congruence. now apply andb_true_iff in Hp. }
    assert (D : tame (addDoc (VArray a t elems))).
    { apply tame_addDocBody. cbn [elements].
      apply tame_addIndexed with (P := tameAt);
        [exact tameAt_elem | now apply Forall_plain_list]. }
    repeat split; [| exact D]. intros name short. cbn [addElem].
    destruct t, a; try discriminate Hp; auto with tamed.
  - assert (Hf : Forall (fun p => tameAt (snd p)) fields)
      by now apply Forall_plain.
    assert (D : tame (addDoc (VStruct t fields))).
    { apply tame_addDocBody. cbn [elements].
      now apply tame_addStruct with (P := tameAt);
        [exact tameAt_elem |]. }
    repeat split; [| exact D]. intros name short. cbn [addElem].
    destruct t; auto with tamed.
    destruct fields as [| f0 [| [f1 x1] rest]]; auto with tamed.
    destruct x1; auto with tamed.
    assert (S : tame (addDoc x1)).
    { inversion Hf as [| ? ? _ H1]; subst. inversion H1 as [| ? ? H2 _]; subst.
      apply H2. }
    destruct x1; auto with tamed;
      apply tame_andThen; auto with tamed;
      apply tame_slot2; auto with tamed.
  - repeat split;
      [intros; apply tame_panic; reflexivity
      | apply tame_addDocBody, tame_no_document].
Qed.

(** X3. For a value in which every slice of bytes is a [[]byte] (and every
    addressable array of bytes has elements of type [byte]), every panic of
    the encoder is a string or an [os.Error]: [Marshal] does not end in a
    panic, it returns bytes, or an error and no bytes. (A value is a finite
    tree: [GetBSON] returns and no pointer leads back into the value.) When
    [addElem] reaches a slice of bytes of another type it panics with a
    run-time error, from every state, and [Marshal] raises it again: so for
    a map with such a slice as its value. *)
Theorem Marshal_returns :
  (forall v, plain v = true ->
     (forall e p, addDoc v e = Panic p -> recoverable p = true) /\
     (forall p, Marshal v <> Panic p) /\
     ((exists d, Marshal v = Ok (d, None)) \/
      (exists msg, Marshal v = Ok ([], Some msg)))) /\
  (forall name elems short e,
     addElem name (VSlice SeqUint8 elems) short e
     = Panic (PRuntime "interface conversion: interface is not []uint8") /\
     Marshal (VMap [(name, VInterface (VSlice SeqUint8 elems))])
     = Panic (PRuntime "interface conversion: interface is not []uint8")).
Proof.
  split.
  - intros v Hp.
    destruct (tame_all v Hp) as (_ & [[d H] | (p & H & R)] & _);
      unfold Marshal; split; [| split | | split].
    + intros e q E. rewrite H in E. discriminate E.
    + intros q. rewrite H. discriminate.
    + left. rewrite H. eexists. reflexivity.
    + intros e q E. rewrite H in E. inversion E; subst. exact R.
    + intros q. rewrite H. destruct p; try discriminate R; discriminate.
    + right. rewrite H. destruct p; try discriminate R; eexists; reflexivity.
  - intros name elems short e. split; [| reflexivity].
    cbn [addElem].
    apply (fails_andThen_r _ _ _ _ (emits_addElemName 5 name)).
    intros e0. reflexivity.
Qed.

Lemma Marshal_returns_witness :
  (forall e p,
     addDoc (VMap [("n", VInterface (VOther TChan))]) e = Panic p ->
     recoverable p = true) /\
  (forall p, Marshal (VMap [("n", VInterface (VOther TChan))]) <> Panic p) /\
  ((exists d, Marshal (VMap [("n", VInterface (VOther TChan))]) = Ok (d, None)) \/
   (exists msg,
      Marshal (VMap [("n", VInterface (VOther TChan))]) = Ok ([], Some msg))).
Proof.
  apply (proj1 Marshal_returns (VMap [("n", VInterface (VOther TChan))])).
  reflexivity.
Defined.

(* ------------------------------------------------------------------ *)
(** ** Documents inside documents *)

Lemma Marshal_bytes v d :
  Marshal v = Ok (d, None) -> emits (addDoc v) d.
Proof.
  unfold Marshal. intros H.
  destruct (proj1 (proj2 (uniform_all v))) as [[d' E] | [p E]].
  - rewrite E in H. cbn in H. inversion H; subst. exact E.
  - rewrite E in H. destruct p; discriminate H.
Qed.

Lemma addElem_embedded name v short kind :
  embeddedKind v = Some kind ->
  addElem name v short = addElemName kind name ;; addDoc v.
Proof.
  intros Hk.
  destruct v; try discriminate Hk; try destruct t; try discriminate Hk;
    inversion Hk; subst; reflexivity.
Qed.

(** X4. A value that [addElem] embeds as a document or an array is written
    as the kind 0x03 or 0x04, the name, and the very bytes [Marshal] returns
    for the value on its own. *)
Theorem embedded_as_marshaled name v short kind d e :
  embeddedKind v = Some kind ->
  Marshal v = Ok (d, None) ->
  addElem name v short e = Ok (mkEncoder (out e ++ element kind name d)).
Proof.
  intros Hk Hm. apply Marshal_bytes in Hm.
  rewrite (addElem_embedded name v short kind Hk).
  apply (emits_elem _ _ _ _ Hm).
Qed.

Lemma embedded_as_marshaled_witness :
  addElem "a" (VSlice SeqOther [VInt TInt 7]) false (mkEncoder [])
  = Ok (mkEncoder ([] ++ element 0x04 "a"
                            [12; 0; 0; 0; 16; 48; 0; 7; 0; 0; 0; 0])).
Proof.
  apply (embedded_as_marshaled "a" (VSlice SeqOther [VInt TInt 7]) false 0x04
           [12; 0; 0; 0; 16; 48; 0; 7; 0; 0; 0; 0] (mkEncoder []));
    reflexivity.
Defined.

Lemma itoa_Itoa i : itoa i = Itoa (Z.of_nat i).
Proof.
  unfold itoa. destruct (i <? itoaCacheSize)%nat eqn:H; [| reflexivity].
  apply Nat.ltb_lt in H. unfold itoaCache.
  rewrite nth_indep with (d' := Itoa (Z.of_nat 0))
    by now rewrite length_map, length_seq.
  rewrite (map_nth (fun i => Itoa (Z.of_nat i))). now rewrite seq_nth.
Qed.

Lemma addIndexed_indexedFrom elems : forall i,
  addIndexed_of addElem i elems = addD_of addElem (indexedFrom i elems).
Proof.
  induction elems as [| x rest IH]; intros i; cbn; [reflexivity |].
  now rewrite itoa_Itoa, IH.
Qed.

(** X5. A slice or an array is written as the document of its elements
    under the decimal numbers of their indices: [Marshal] returns for it
    what it returns for the [D] of these pairs. The cache of [itoa] gives
    what [strconv.Itoa] gives. *)
Theorem sequence_as_indexed_document :
  (forall i, itoa i = Itoa (Z.of_nat i)) /\
  (forall t elems,
     Marshal (VSlice t elems) = Marshal (VD (indexedFrom 0 elems))) /\
  (forall a t elems,
     Marshal (VArray a t elems) = Marshal (VD (indexedFrom 0 elems))).
Proof.
  split; [exact itoa_Itoa |].
  split; intros; unfold Marshal, addDoc; cbn [addDoc_of addDocBody_of];
    now rewrite addIndexed_indexedFrom.
Qed.

Lemma addElem_Raw name kind d short :
  addElem name (Raw kind d) short
  = addElemName (if kind =? 0x00 then 0x03 else kind) name ;; addBytes d.
Proof.
  unfold Raw, bytesValue. cbn [addElem Field nth_error UintOf].
  now rewrite BytesOfElems_bytes.
Qed.

Lemma addDoc_Raw kind d :
  addDoc (Raw kind d)
  = if negb (kind =? 0x03) && negb (kind =? 0x00)
    then panic (PString ("Attempted to unmarshal Raw kind " ++
                         Itoa kind ++ " as a document"))
    else addBytes d.
Proof.
  unfold addDoc, Raw, bytesValue.
  cbn [addDoc_of addDocBody_of Field nth_error UintOf].
  now rewrite BytesOfElems_bytes.
Qed.

(** X6. The bytes [Marshal] returns for a value pass through a Raw of kind
    0x03 or 0x00 unchanged, at top level and, where the value is embedded
    with kind 0x03, as an element. *)
Theorem Raw_round_trip v d :
  Marshal v = Ok (d, None) ->
  Marshal (Raw 0x03 d) = Ok (d, None) /\
  Marshal (Raw 0x00 d) = Ok (d, None) /\
  (embeddedKind v = Some 0x03 ->
   forall name short e,
     addElem name (Raw 0x03 d) short e = addElem name v short e /\
     addElem name (Raw 0x00 d) short e = addElem name v short e).
Proof.
  intros Hm.
  split; [unfold Marshal; now rewrite addDoc_Raw |].
  split; [unfold Marshal; now rewrite addDoc_Raw |].
  intros Hk name short e.
  rewrite (addElem_embedded name v short 3 Hk).
  rewrite (emits_elem _ _ _ _ (Marshal_bytes v d Hm)), !addElem_Raw.
  split; apply (emits_elem _ _ _ _ (emits_addBytes d)).
Qed.

Lemma Raw_round_trip_witness :
  Marshal (Raw 0x03 [5; 0; 0; 0; 0]) = Ok ([5; 0; 0; 0; 0], None).
Proof.
  apply (Raw_round_trip (VMap []) [5; 0; 0; 0; 0]). reflexivity.
Defined.

(** X7. A [[]byte] and an addressable array of bytes are written as the
    Binary of subtype 0x00 with the same bytes: the kind 0x05, the name, the
    length, the subtype and the bytes. An array of bytes that is not
    addressable is an error. *)
Theorem bytes_as_generic_binary name data short e :
  addElem name (bytesValue data) short e
  = addElem name (Binary 0x00 data) short e /\
  addElem name (VArray true SeqBytes (map (VUint TUint8) data)) short e
  = addElem name (Binary 0x00 data) short e /\
  addElem name (Binary 0x00 data) short e
  = Ok (mkEncoder (out e ++ element 0x05 name
                     (le32 (uint32 (int32 (blen data))) ++ [0x00] ++ data))) /\
  exists msg,
    addElem name (VArray false SeqBytes (map (VUint TUint8) data)) short e
    = Panic (PString msg).
Proof.
  assert (B : addElem name (Binary 0x00 data) short
              = addElemName 0x05 name ;; addBinary 0x00 data).
  { unfold Binary, bytesValue. cbn [addElem Field nth_error UintOf].
    now rewrite BytesOfElems_bytes. }
  rewrite B. unfold bytesValue. cbn [addElem]. rewrite BytesOfElems_bytes.
  repeat split.
  - apply (emits_elem _ _ _ _ (emits_addBinary 0 data)).
  - eexists.
    apply (fails_andThen_r _ _ _ _ (emits_addElemName 5 name)).
    intros e0. reflexivity.
Qed.

Lemma getStructFieldsFrom_unexported st : forall i m l,
  Forall (fun f => PkgPath f <> "") st ->
  getStructFieldsFrom st i m l = Ok (inl (mkStructFields m l)).
Proof.
  induction st as [| f rest IH]; intros i m l H; cbn; [reflexivity |].
  inversion H as [| ? ? Hf Hrest]; subst.
  apply String.eqb_neq in Hf. rewrite Hf. cbn [negb]. now apply IH.
Qed.

(** X8. A structure whose fields are all unexported, whatever their
    values, is written as the empty document. *)
Theorem unexported_fields_not_written fields :
  Forall (fun p => PkgPath (fst p) <> "") fields ->
  Marshal (VStruct TStruct fields) = Ok ([5; 0; 0; 0; 0], None).
Proof.
  intros H. unfold Marshal, addDoc. cbn [addDoc_of addDocBody_of].
  unfold addStruct_of, getStructFields.
  rewrite getStructFieldsFrom_unexported
    by (apply Forall_map; exact H).
  destruct fields; reflexivity.
Qed.

Lemma unexported_fields_not_written_witness :
  Marshal (VStruct TStruct [(mkStructField "hidden" "main" "", VOther TChan)])
  = Ok ([5; 0; 0; 0; 0], None).
Proof.
  apply (unexported_fields_not_written
           [(mkStructField "hidden" "main" "", VOther TChan)]).
  repeat constructor. discriminate.
Defined.

(* ------------------------------------------------------------------ *)
(** ** The schema *)



(** One round of the loop of [getStructFields], by the entry of the field. *)
Lemma getStructFieldsFrom_step field rest i m l :
  getStructFieldsFrom (field :: rest) i m l =
  if negb (String.eqb (PkgPath field) "")
  then getStructFieldsFrom rest (S i) m l
  else match fieldInfoOf i field with
       | Panic p => Panic p
       | Ok info =>
           if found (Key info) m
           then Ok (inr ("Duplicated key '" ++ Key info ++ "' in struct")%string)
           else getStructFieldsFrom rest (S i)
                  (m ++ [(Key info, info)]) (l ++ [info])
       end.
Proof.
  cbn [getStructFieldsFrom]. unfold fieldInfoOf.
  destruct (negb _); [reflexivity |].
  destruct (LastIndex (Tag field) "/" =? -1); [reflexivity |].
  destruct (parseFlags _ _); reflexivity.
Qed.

Lemma fieldInfoOf_Num i field info :
  fieldInfoOf i field = Ok info -> Num info = i.
Proof.
  unfold fieldInfoOf. intros H.
  destruct (LastIndex (Tag field) "/" =? -1).
  - now inversion H.
  - destruct (parseFlags _ _) as [info' |] eqn:Hq; [| discriminate].
    inversion H; subst. cbn. now apply parseFlags_Num in Hq.
Qed.

Lemma found_keys key (l : list fieldInfo) :
  found key (map (fun info => (Key info, info)) l) = false ->
  ~ In key (map Key l).
Proof.
  unfold found. induction l as [| a l IH]; cbn; [tauto |].
  intros H. apply orb_false_iff in H. destruct H as [Ha Hl].
  intros [E | E]; [| now apply IH].
  subst key. now rewrite String.eqb_refl in Ha.
Qed.

Lemma NoDup_snoc (A : Type) (l : list A) (x : A) :
  NoDup l -> ~ In x l -> NoDup (l ++ [x]).
Proof.
  intros Hl Hx. apply NoDup_rev in Hl. rewrite <- (rev_involutive (l ++ [x])).
  apply NoDup_rev. rewrite rev_app_distr. cbn. constructor; [| exact Hl].
  now rewrite <- in_rev.
Qed.

Lemma getStructFieldsFrom_keys st : forall i l schema,
  NoDup (map Key l) ->
  getStructFieldsFrom st i (map (fun info => (Key info, info)) l) l
  = Ok (inl schema) ->
  NoDup (map Key (FieldList schema)) /\
  FieldMap schema = map (fun info => (Key info, info)) (FieldList schema).
Proof.
  induction st as [| f rest IH]; intros i l schema Hl H.
  - cbn in H. inversion H; subst. now split.
  - rewrite getStructFieldsFrom_step in H.
    destruct (negb _); [exact (IH _ _ _ Hl H) |].
    destruct (fieldInfoOf i f) as [info |]; [| discriminate].
    destruct (found _ _) eqn:Hf; [discriminate |].
    apply found_keys in Hf.
    replace (map (fun info => (Key info, info)) l ++ [(Key info, info)])
      with (map (fun info => (Key info, info)) (l ++ [info])) in H
      by now rewrite map_app.
    apply IH in H; [exact H |].
    rewrite map_app. now apply NoDup_snoc.
Qed.

(** X10. In a schema that [getStructFields] returns no two entries have the
    same key, and the map holds each entry of the list under its key. *)
Theorem getStructFields_keys st schema :
  getStructFields st = Ok (inl schema) ->
  NoDup (map Key (FieldList schema)) /\
  FieldMap schema = map (fun info => (Key info, info)) (FieldList schema).
Proof.
  intros H. unfold getStructFields in H.
  change (@nil (string * fieldInfo))
    with (map (fun info => (Key info, info)) []) in H.
  apply getStructFieldsFrom_keys in H; [exact H |].
  constructor.
Qed.

Lemma getStructFields_keys_witness :
  NoDup (map Key [mkFieldInfo "name" 0 false false;
                  mkFieldInfo "age" 1 true false]).
Proof.
  apply (getStructFields_keys
           [mkStructField "Name" "" "name"; mkStructField "Age" "" "age/c"]
           (mkStructFields
              [("name", mkFieldInfo "name" 0 false false);
               ("age", mkFieldInfo "age" 1 true false)]
              [mkFieldInfo "name" 0 false false;
               mkFieldInfo "age" 1 true false])).
  reflexivity.
Defined.

Lemma getStructFieldsFrom_Nums st : forall i m l schema,
  getStructFieldsFrom st i m l = Ok (inl schema) ->
  map Num (FieldList schema) = map Num l ++ exportedFrom i st.
Proof.
  induction st as [| f rest IH]; intros i m l schema H.
  - cbn in H. inversion H; subst. cbn. now rewrite app_nil_r.
  - rewrite getStructFieldsFrom_step in H. cbn [exportedFrom].
    destruct (String.eqb (PkgPath f) ""); cbn [negb] in H;
      [| exact (IH _ _ _ _ H)].
    destruct (fieldInfoOf i f) as [info |] eqn:Hi; [| discriminate].
    destruct (found _ _); [discriminate |].
    apply IH in H. rewrite H, map_app. cbn [map].
    rewrite (fieldInfoOf_Num _ _ _ Hi), <- app_assoc. reflexivity.
Qed.

(** X11. The entries of a schema are those of the exported fields of the
    type, in the order of declaration: their field numbers are the
    positions of the exported fields. *)
Theorem getStructFields_exported_positions st schema :
  getStructFields st = Ok (inl schema) ->
  map Num (FieldList schema) = exportedFrom 0 st.
Proof.
  intros H. unfold getStructFields in H.
  apply getStructFieldsFrom_Nums in H. rewrite H. reflexivity.
Qed.

Lemma getStructFields_exported_positions_witness :
  map Num [mkFieldInfo "age" 1 true false]
  = exportedFrom 0 [mkStructField "hidden" "main" "";
                    mkStructField "Age" "" "age/c"].
Proof.
  apply (getStructFields_exported_positions
           [mkStructField "hidden" "main" ""; mkStructField "Age" "" "age/c"]
           (mkStructFields [("age", mkFieldInfo "age" 1 true false)]
                           [mkFieldInfo "age" 1 true false])).
  reflexivity.
Defined.

Lemma addStructFields_own fields : forall i m l schema,
  Forall (fun p => PkgPath (fst p) = "") fields ->
  getStructFieldsFrom (map fst fields) i m l = Ok (inl schema) ->
  exists infos,
    FieldList schema = l ++ infos /\
    addStructFields_of addElem infos fields = addOwnFields i fields.
Proof.
  induction fields as [| [f x] rest IH]; intros i m l schema Hx H.
  - cbn in H. inversion H; subst. exists []. cbn. now rewrite app_nil_r.
  - inversion Hx as [| ? ? Hf Hrest]; subst. cbn [fst] in Hf.
    cbn [map fst] in H. rewrite getStructFieldsFrom_step, Hf in H.
    cbn [String.eqb negb] in H.
    destruct (fieldInfoOf i f) as [info |] eqn:Hi; [| discriminate].
    destruct (found _ _); [discriminate |].
    destruct (IH _ _ _ _ Hrest H) as (infos & E & A).
    exists (info :: infos). split.
    + rewrite E, <- app_assoc. reflexivity.
    + cbn [addStructFields_of addOwnFields]. now rewrite Hi, A.
Qed.

(** X12. For a structure without unexported fields whose schema is
    derived, [addStruct] writes each field by the entry of its own name and
    tag: it leaves the field out when the tag has the flag [c] and the value
    is zero, and otherwise writes it under its key with its short flag. *)
Theorem addStruct_exported fields schema :
  Forall (fun p => PkgPath (fst p) = "") fields ->
  getStructFields (map fst fields) = Ok (inl schema) ->
  addStruct fields = addOwnFields 0 fields.
Proof.
  intros Hx H. unfold addStruct, addStruct_of. rewrite H.
  destruct (addStructFields_own fields 0%nat [] [] schema Hx H)
    as (infos & E & A).
  cbn [app] in E. now rewrite E, A.
Qed.

Lemma addStruct_exported_witness :
  addStruct [(mkStructField "Name" "" "name", VString TString "Ada");
             (mkStructField "Age" "" "age/c", VInt TInt 0)]
  = addOwnFields 0
      [(mkStructField "Name" "" "name", VString TString "Ada");
       (mkStructField "Age" "" "age/c", VInt TInt 0)].
Proof.
  apply (addStruct_exported
           [(mkStructField "Name" "" "name", VString TString "Ada");
            (mkStructField "Age" "" "age/c", VInt TInt 0)]
           (mkStructFields
              [("name", mkFieldInfo "name" 0 false false);
               ("age", mkFieldInfo "age" 1 true false)]
              [mkFieldInfo "name" 0 false false;
               mkFieldInfo "age" 1 true false])).
  - repeat constructor.
  - reflexivity.
Defined.





(* ------------------------------------------------------------------ *)
(** ** Numbers *)

Lemma leValue_le32 v : leValue (le32 v) = v mod 2 ^ 32.
Proof.
  unfold le32. cbn [leValue].
  rewrite Z.shiftl_0_l, Z.lor_0_r, !Z.shiftl_lor, !Z.shiftl_shiftl by lia.
  cbn [Z.add Pos.add Pos.succ]. rewrite !Z.lor_assoc. apply lor_le32.
Qed.

Lemma leValue_app a b :
  leValue (a ++ b)
  = Z.lor (leValue a) (Z.shiftl (leValue b) (8 * Z.of_nat (List.length a))).
Proof.
  induction a as [| x a IH]; cbn [app leValue List.length].
  - now rewrite Z.shiftl_0_r.
  - rewrite IH, Z.shiftl_lor, Z.shiftl_shiftl, Z.lor_assoc by lia.
    do 2 f_equal. lia.
Qed.

Lemma le64_halves v : le64 v = le32 v ++ le32 (Z.shiftr v 32).
Proof.
  unfold le64, le32. cbn [app]. now rewrite !Z.shiftr_shiftr by lia.
Qed.

Lemma leValue_le64 v : leValue (le64 v) = v mod 2 ^ 64.
Proof.
  rewrite le64_halves, leValue_app, !leValue_le32.
  change (8 * Z.of_nat (List.length (le32 v))) with 32.
  rewrite <- !Z.land_ones by lia. Z.bitblast.
Qed.

Lemma int64_small v : - 2 ^ 63 <= v < 2 ^ 63 -> int64 v = v.
Proof. intros H. unfold int64. rewrite Z.mod_small; lia. Qed.

Lemma int64_mod v : int64 (v mod 2 ^ 64) = int64 v.
Proof. unfold int64. now rewrite Z.add_mod_idemp_l by lia. Qed.

Lemma uint64_int64 v : uint64 (int64 v) = uint64 v.
Proof.
  unfold uint64, int64.
  rewrite Zminus_mod, Z.mod_mod, <- Zminus_mod by lia.
  f_equal. lia.
Qed.

(** X14. An unsigned value is never cut: at 2^63 and above [addElem] panics
    with a string; below, it writes kind 0x10 with four bytes or kind 0x12
    with eight, and the payload read as a little-endian number is the
    value. *)
Theorem uint_value_kept name t u short e :
  0 <= u < 2 ^ 64 ->
  (2 ^ 63 <= u ->
   exists msg, addElem name (VUint t u) short e = Panic (PString msg)) /\
  (u < 2 ^ 63 ->
   exists kind payload,
     addElem name (VUint t u) short e
     = Ok (mkEncoder (out e ++ element kind name payload)) /\
     leValue payload = u /\
     ((kind = 0x10 /\ List.length payload = 4%nat /\ u <= MaxInt32) \/
      (kind = 0x12 /\ List.length payload = 8%nat))).
Proof.
  intros Hu. cbn [addElem]. split; intros H.
  - replace (int64 u <? 0) with true; [eexists; reflexivity |].
    symmetry. apply Z.ltb_lt. unfold int64.
    replace (u + 2 ^ 63) with (u - 2 ^ 63 + 1 * 2 ^ 64) by lia.
    rewrite Z.mod_add, Z.mod_small by lia. lia.
  - replace (int64 u <? 0) with false
      by (symmetry; apply Z.ltb_ge; rewrite int64_small; lia).
    destruct ((u <=? MaxInt32) && _) eqn:C.
    + apply andb_true_iff in C. destruct C as [C _]. apply Z.leb_le in C.
      exists 0x10, (le32 (uint32 (int32 u))). split; [| split].
      * apply (emits_elem _ _ _ _ (emits_addInt32 _)).
      * rewrite uint32_int32, leValue_le32. unfold uint32, MaxInt32 in *.
        rewrite Z.mod_mod by lia. apply Z.mod_small. lia.
      * left. auto.
    + exists 0x12, (le64 (uint64 (int64 u))). split; [| split].
      * apply (emits_elem _ _ _ _ (emits_addInt64 _)).
      * rewrite uint64_int64, leValue_le64. unfold uint64.
        rewrite Z.mod_mod by lia. apply Z.mod_small. lia.
      * right. auto.
Qed.

Lemma uint_value_kept_witness :
  (exists msg, addElem "u" (VUint TUint64 (2 ^ 63)) false (mkEncoder [])
               = Panic (PString msg)) /\
  exists kind payload,
    addElem "u" (VUint TUint32 (2 ^ 32 - 1)) false (mkEncoder [])
    = Ok (mkEncoder ([] ++ element kind "u" payload)) /\
    leValue payload = 2 ^ 32 - 1 /\
    ((kind = 0x10 /\ List.length payload = 4%nat /\ 2 ^ 32 - 1 <= MaxInt32) \/
     (kind = 0x12 /\ List.length payload = 8%nat)).
Proof.
  split.
  - apply (proj1 (uint_value_kept "u" TUint64 (2 ^ 63) false (mkEncoder [])
                    ltac:(lia))). lia.
  - apply (proj2 (uint_value_kept "u" TUint32 (2 ^ 32 - 1) false (mkEncoder [])
                    ltac:(lia))). lia.
Defined.

(** X15. A signed value of a type of 8, 16 or 32 bits is written as kind
    0x10 and an int64 value as kind 0x10 or 0x12 (always 0x12 without the
    short flag); the payload read back as an int32 or int64 is the value. *)
Theorem int_value_kept name i short e :
  (forall t, t = TInt8 \/ t = TInt16 \/ t = TInt32 ->
   MinInt32 <= i <= MaxInt32 ->
   exists payload,
     addElem name (VInt t i) short e
     = Ok (mkEncoder (out e ++ element 0x10 name payload)) /\
     List.length payload = 4%nat /\
     int32 (leValue payload) = i) /\
  (- 2 ^ 63 <= i < 2 ^ 63 ->
   exists kind payload,
     addElem name (VInt TInt64 i) short e
     = Ok (mkEncoder (out e ++ element kind name payload)) /\
     ((kind = 0x10 /\ short = true /\ int32 (leValue payload) = i) \/
      (kind = 0x12 /\ int64 (leValue payload) = i))).
Proof.
  split.
  - intros t Ht Hi. exists (le32 (uint32 (int32 i))). split; [| split].
    + destruct Ht as [-> | [-> | ->]];
        apply (emits_elem _ _ _ _ (emits_addInt32 _)).
    + reflexivity.
    + rewrite uint32_int32, leValue_le32. unfold uint32.
      rewrite Z.mod_mod by lia. now apply int32_uint32.
  - intros Hi. cbn [addElem intKind].
    change (Kind_leb Int64 Int32) with false. cbv iota.
    destruct (short && (MinInt32 <=? i) && (i <=? MaxInt32)) eqn:C.
    + apply andb_true_iff in C. destruct C as [C C3].
      apply andb_true_iff in C. destruct C as [C1 C2].
      apply Z.leb_le in C2, C3.
      exists 0x10, (le32 (uint32 (int32 i))). split.
      * apply (emits_elem _ _ _ _ (emits_addInt32 _)).
      * left. repeat split; [exact C1 |].
        rewrite uint32_int32, leValue_le32. unfold uint32.
        rewrite Z.mod_mod by lia. apply int32_uint32. lia.
    + exists 0x12, (le64 (uint64 i)). split.
      * apply (emits_elem _ _ _ _ (emits_addInt64 _)).
      * right. split; [reflexivity |].
        rewrite leValue_le64. unfold uint64. rewrite Z.mod_mod by lia.
        rewrite int64_mod. now apply int64_small.
Qed.

Lemma int_value_kept_witness :
  (exists payload,
     addElem "i" (VInt TInt8 (-1)) false (mkEncoder [])
     = Ok (mkEncoder ([] ++ element 0x10 "i" payload)) /\
     List.length payload = 4%nat /\
     int32 (leValue payload) = -1) /\
  exists kind payload,
    addElem "i" (VInt TInt64 (-1)) false (mkEncoder [])
    = Ok (mkEncoder ([] ++ element kind "i" payload)) /\
    ((kind = 0x10 /\ false = true /\ int32 (leValue payload) = -1) \/
     (kind = 0x12 /\ int64 (leValue payload) = -1)).
Proof.
  split.
  - apply (proj1 (int_value_kept "i" (-1) false (mkEncoder [])) TInt8).
    + left. reflexivity.
    + unfold MinInt32, MaxInt32. lia.
  - apply (proj2 (int_value_kept "i" (-1) false (mkEncoder []))). lia.
Defined.

Lemma Now_value ns :
  - 2 ^ 63 <= ns < 2 ^ 63 -> Now ns = Z.quot ns 1000000 * 1000000.
Proof.
  intros H. unfold Now.
  pose proof (Z.quot_rem' ns 1000000) as Q.
  assert (R : Z.abs (Z.rem ns 1000000) < 1000000)
    by (apply Z.rem_bound_abs; lia).
  assert (S : 0 <= Z.rem ns 1000000 * ns) by (apply Z.rem_sign_mul; lia).
  rewrite (int64_small (Z.quot ns 1000000)) by nia.
  apply int64_small. nia.
Qed.

(** X16. A Timestamp is written as kind 0x09 with the nanoseconds divided by
    10^6, the division truncating. What [Now] returns is a whole number of
    milliseconds: the milliseconds written for it, times 10^6, are the
    value again, and it is written as the time it was made from. *)
Theorem Timestamp_milliseconds name ns short e :
  - 2 ^ 63 <= ns < 2 ^ 63 ->
  addElem name (VInt typeTimestamp ns) short e
  = Ok (mkEncoder (out e ++ element 0x09 name
                     (le64 (uint64 (Z.quot ns 1000000))))) /\
  Z.quot (Now ns) 1000000 * 1000000 = Now ns /\
  addElem name (VInt typeTimestamp (Now ns)) short e
  = addElem name (VInt typeTimestamp ns) short e.
Proof.
  intros H.
  assert (Q : Z.quot (Now ns) 1000000 = Z.quot ns 1000000).
  { rewrite (Now_value ns H). apply Z.quot_mul. lia. }
  split; [| split].
  - apply (emits_elem _ _ _ _ (emits_addInt64 _)).
  - rewrite Q. symmetry. now apply Now_value.
  - cbn [addElem intKind]. change (Kind_leb Int64 Int32) with false.
    cbv iota. now rewrite Q.
Qed.

Lemma Timestamp_milliseconds_witness :
  Z.quot (Now 1300816219123456789) 1000000 * 1000000
  = Now 1300816219123456789.
Proof.
  apply (Timestamp_milliseconds "t" 1300816219123456789 false (mkEncoder [])).
  lia.
Defined.

(* ------------------------------------------------------------------ *)
(** ** ObjectId: the parts of a generated id *)

Lemma be16_join p :
  Z.lor (byte p) (Z.shiftl (byte (Z.shiftr p 8)) 8) = p mod 2 ^ 16.
Proof. unfold byte. rewrite <- !Z.land_ones by lia. Z.bitblast. Qed.

Section GeneratedIds.

Variable md5 : list Z -> list Z.

(** The twelve bytes of a generated id. *)
Lemma NewObjectId_bytes env g id g' :
  NewObjectId md5 env g = Ok (id, g') ->
  exists m0 m1 m2 rest,
    machineId g' = Some (m0 :: m1 :: m2 :: rest) /\
    (forall m, machineId g = Some m -> machineId g' = Some m) /\
    objectIdCounter g' = uint32 (objectIdCounter g + 1) /\
    id = stringOf
           [byte (Z.shiftr (uint32 (Seconds env)) 24);
            byte (Z.shiftr (uint32 (Seconds env)) 16);
            byte (Z.shiftr (uint32 (Seconds env)) 8);
            byte (uint32 (Seconds env));
            m0; m1; m2;
            byte (Z.shiftr (Getpid env) 8); byte (Getpid env);
            byte (Z.shiftr (objectIdCounter g') 16);
            byte (Z.shiftr (objectIdCounter g') 8);
            byte (objectIdCounter g')].
Proof.
  unfold NewObjectId, initMachineId. intros H.
  destruct g as [c [m |]]; cbn [machineId objectIdCounter] in *.
  - destruct m as [| m0 [| m1 [| m2 rest]]]; try discriminate H.
    inversion H; subst. exists m0, m1, m2, rest. cbn. auto.
  - destruct (Hostname env) as [h | err]; [| discriminate H].
    cbn [machineId objectIdCounter] in H.
    destruct (copy [0; 0; 0] (md5 (bytesOf h)))
      as [| m0 [| m1 [| m2 rest]]]; try discriminate H.
    inversion H; subst. exists m0, m1, m2, rest. cbn.
    repeat split; auto. discriminate.
Qed.

Lemma NewObjectId_counter env g id g' :
  NewObjectId md5 env g = Ok (id, g') ->
  Valid id = true /\
  Counter id = Ok (objectIdCounter g' mod 2 ^ 24).
Proof.
  intros H.
  destruct (NewObjectId_bytes env g id g' H)
    as (m0 & m1 & m2 & rest & _ & _ & _ & ->).
  split.
  - unfold Valid, len. now rewrite length_stringOf.
  - unfold Counter. rewrite byteSlice_stringOf; [| reflexivity |].
    + cbn [firstn skipn Nat.sub nth]. rewrite counter_join. f_equal.
      apply int32_small.
      pose proof (Z.mod_pos_bound (objectIdCounter g') (2 ^ 24)). lia.
    + cbn [firstn skipn Nat.sub]. repeat constructor; apply byte_range.
Qed.

(** X17. The accessors give back what [NewObjectId] put into the id: the
    id is valid, its timestamp is the seconds as an int32, its pid the low
    16 bits of the process id, its counter the low 24 bits of the counter
    after the call, and its machine part the first three bytes of the
    machine id. *)
Theorem NewObjectId_parts env g id g' :
  NewObjectId md5 env g = Ok (id, g') ->
  Valid id = true /\
  Timestamp id = Ok (int32 (uint32 (Seconds env))) /\
  Pid id = Ok (Getpid env mod 2 ^ 16) /\
  Counter id = Ok (objectIdCounter g' mod 2 ^ 24) /\
  (forall m, machineId g' = Some m ->
     Forall (fun x => 0 <= x < 256) (firstn 3 m) ->
     Machine id = Ok (firstn 3 m)).
Proof.
  intros H.
  destruct (NewObjectId_counter env g id g' H) as [V C].
  destruct (NewObjectId_bytes env g id g' H)
    as (m0 & m1 & m2 & rest & Hm & _ & _ & E).
  split; [exact V |]. split; [| split; [| split; [exact C |]]]; subst id.
  - unfold Timestamp. rewrite byteSlice_stringOf; [| reflexivity |].
    + cbn [firstn skipn Nat.sub]. unfold BigEndian.Uint32. cbn [nth].
      now rewrite lor_le32, int32_mod.
    + cbn [firstn skipn Nat.sub]. repeat constructor; apply byte_range.
  - unfold Pid. rewrite byteSlice_stringOf; [| reflexivity |].
    + cbn [firstn skipn Nat.sub]. unfold BigEndian.Uint16. cbn [nth].
      now rewrite be16_join.
    + cbn [firstn skipn Nat.sub]. repeat constructor; apply byte_range.
  - intros m E' R. rename E' into E. rewrite Hm in E. inversion E; subst m.
    unfold Machine. rewrite byteSlice_stringOf; [reflexivity | reflexivity |].
    exact R.
Qed.

Lemma NewObjectId_ready env g id g' :
  NewObjectId md5 env g = Ok (id, g') -> ready env g = true.
Proof.
  unfold NewObjectId, initMachineId, ready. intros H.
  destruct g as [c [m |]]; cbn [machineId objectIdCounter] in *.
  - destruct m as [| m0 [| m1 [| m2 rest]]]; try discriminate H. reflexivity.
  - destruct (Hostname env); [reflexivity | discriminate H].
Qed.

(** X18. The machine id is set once. A call on globals without one asks
    for the host name and panics with a string when there is none; after a
    call that returned, every further call returns whatever the host name
    is by then, keeps the machine id, and puts the same three bytes into
    the id. *)
Theorem machineId_set_once env g :
  (machineId g = None ->
   forall err, Hostname env = inr err ->
     NewObjectId md5 env g
     = Panic (PString ("Failed to get hostname: " ++ err))) /\
  (forall id g', NewObjectId md5 env g = Ok (id, g') ->
     forall env', exists id' g'',
       NewObjectId md5 env' g' = Ok (id', g'') /\
       machineId g'' = machineId g' /\
       substring 4 3 id' = substring 4 3 id).
Proof.
  split.
  - intros Hg err He. unfold NewObjectId, initMachineId.
    now rewrite Hg, He.
  - intros id g' H env'.
    destruct (NewObjectId_bytes env g id g' H)
      as (m0 & m1 & m2 & rest & Hm & _ & _ & E).
    assert (R : ready env' g' = true) by (unfold ready; now rewrite Hm).
    destruct (NewObjectId_step md5 env' g' R) as (id' & g'' & H' & _).
    exists id', g''. split; [exact H' |].
    destruct (NewObjectId_bytes env' g' id' g'' H')
      as (n0 & n1 & n2 & rest' & Hm' & K & _ & E').
    rewrite (K _ Hm) in Hm'. inversion Hm'; subst n0 n1 n2 rest'.
    split; [now rewrite (K _ Hm) |].
    rewrite E, E', !substring_stringOf. reflexivity.
Qed.

Lemma NewObjectIds_counters envs : forall g ids g' k id,
  NewObjectIds md5 envs g = Ok (ids, g') ->
  nth_error ids k = Some id ->
  Counter id = Ok ((objectIdCounter g + 1 + Z.of_nat k) mod 2 ^ 24).
Proof.
  induction envs as [| env rest IH]; intros g ids g' k id H Hk;
    cbn [NewObjectIds] in H.
  - inversion H; subst. destruct k; discriminate Hk.
  - destruct (NewObjectId md5 env g) as [[id0 g1] |] eqn:E; [| discriminate].
    destruct (NewObjectIds md5 rest g1) as [[ids1 g2] |] eqn:E1;
      [| discriminate].
    inversion H; subst.
    destruct (NewObjectId_bytes env g id0 g1 E) as (_ & _ & _ & _ & _ & _ & N & _).
    destruct k as [| k]; cbn [nth_error] in Hk.
    + inversion Hk; subst.
      destruct (NewObjectId_counter env g id g1 E) as [_ C].
      rewrite C, N. unfold uint32.
      rewrite Z.mod_mod_divide by (exists (2 ^ 8); reflexivity).
      do 2 f_equal. lia.
    + rewrite (IH g1 ids1 g' k id E1 Hk), N. unfold uint32. f_equal.
      rewrite <- (Z.mod_mod_divide (objectIdCounter g + 1 + Z.of_nat (S k))
                    (2 ^ 32) (2 ^ 24)) by (exists (2 ^ 8); reflexivity).
      rewrite <- (Z.mod_mod_divide
                    ((objectIdCounter g + 1) mod 2 ^ 32 + 1 + Z.of_nat k)
                    (2 ^ 32) (2 ^ 24)) by (exists (2 ^ 8); reflexivity).
      f_equal.
      rewrite <- Z.add_assoc, Z.add_mod_idemp_l by lia. f_equal. lia.
Qed.

(** X19. In a run of calls of [NewObjectId], two ids made fewer than 2^24
    calls apart are different. *)
Theorem NewObjectIds_distinct envs g ids g' i j a b :
  NewObjectIds md5 envs g = Ok (ids, g') ->
  nth_error ids i = Some a ->
  nth_error ids j = Some b ->
  (i < j)%nat ->
  Z.of_nat j - Z.of_nat i < 2 ^ 24 ->
  a <> b.
Proof.
  intros H Ha Hb Hij Hd E. subst b.
  pose proof (NewObjectIds_counters envs g ids g' i a H Ha) as Ci.
  pose proof (NewObjectIds_counters envs g ids g' j a H Hb) as Cj.
  rewrite Ci in Cj.
  assert (M : (objectIdCounter g + 1 + Z.of_nat i) mod 2 ^ 24
              = (objectIdCounter g + 1 + Z.of_nat j) mod 2 ^ 24)
    by congruence.
  pose proof (Z.div_mod (objectIdCounter g + 1 + Z.of_nat i) (2 ^ 24)
                ltac:(lia)) as Di.
  pose proof (Z.div_mod (objectIdCounter g + 1 + Z.of_nat j) (2 ^ 24)
                ltac:(lia)) as Dj.
  rewrite M in Di. lia.
Qed.

End GeneratedIds.

Lemma machineId_set_once_witness :
  NewObjectId (fun _ => [1; 2; 3; 4]) (mkProcess 0 (inr "none") 1) fresh
  = Panic (PString ("Failed to get hostname: " ++ "none")).
Proof.
  apply (proj1 (machineId_set_once (fun _ => [1; 2; 3; 4]) (mkProcess 0 (inr "none") 1) fresh)
           eq_refl "none" eq_refl).
Defined.

Lemma NewObjectIds_distinct_witness :
  stringOf [0; 0; 0; 0; 1; 2; 3; 0; 7; 0; 0; 1]
  <> stringOf [0; 0; 0; 0; 1; 2; 3; 0; 7; 0; 0; 2].
Proof.
  apply (NewObjectIds_distinct (fun _ => [1; 2; 3; 4])
           [mkProcess 0 (inl "host") 7; mkProcess 0 (inl "host") 7] fresh
           [stringOf [0; 0; 0; 0; 1; 2; 3; 0; 7; 0; 0; 1];
            stringOf [0; 0; 0; 0; 1; 2; 3; 0; 7; 0; 0; 2]]
           (mkGlobals 2 (Some [1; 2; 3])) 0%nat 1%nat);
    try reflexivity; lia.
Defined.

Lemma NewObjectId_parts_witness :
  Pid (stringOf [0; 0; 0; 0; 1; 2; 3; 0x12; 0x34; 0; 0; 1])
  = Ok (0x1234 mod 2 ^ 16).
Proof.
  apply (NewObjectId_parts (fun _ => [1; 2; 3; 4])
           (mkProcess 0 (inl "host") 0x1234) fresh
           (stringOf [0; 0; 0; 0; 1; 2; 3; 0x12; 0x34; 0; 0; 1])
           (mkGlobals 1 (Some [1; 2; 3]))).
  reflexivity.
Defined.

(* ------------------------------------------------------------------ *)
(** ** ObjectId: hexadecimal form and element *)

Lemma bytesOf_range s : Forall (fun x => 0 <= x < 256) (bytesOf s).
Proof.
  unfold bytesOf. apply Forall_map, Forall_forall. intros c _.
  pose proof (N_ascii_bounded c). lia.
Qed.

Lemma stringOf_bytesOf s : stringOf (bytesOf s) = s.
Proof.
  unfold stringOf, bytesOf. rewrite map_map.
  rewrite (map_ext _ (fun c => c)).
  - rewrite map_id. apply string_of_list_ascii_of_string.
  - intros c. now rewrite N2Z.id, ascii_N_embedding.
Qed.

Lemma length_bytesOf s : List.length (bytesOf s) = String.length s.
Proof.
  rewrite <- (stringOf_bytesOf s) at 2. now rewrite length_stringOf.
Qed.

Lemma fromHexChar_digit n :
  0 <= n < 16 ->
  hex.fromHexChar (Z.of_N (N_of_ascii (hex.digit n))) = Some n.
Proof.
  intros H.
  rewrite <- (Z2Nat.id n) by lia.
  assert (K : (Z.to_nat n < 16)%nat) by lia.
  revert K. generalize (Z.to_nat n) as k. intros k K.
  do 16 (destruct k as [| k]; [reflexivity |]). lia.
Qed.

Lemma nibbles_join v :
  0 <= v < 256 -> byte (Z.lor (Z.shiftl (Z.shiftr v 4) 4) (Z.land v 15)) = v.
Proof.
  intros H. unfold byte.
  rewrite <- (Z.mod_small v (2 ^ 8)) at 3 by lia.
  rewrite <- !Z.land_ones by lia.
  change 15 with (Z.ones 4). Z.bitblast.
Qed.

Lemma Decode_Encode b :
  Forall (fun x => 0 <= x < 256) b ->
  hex.Decode (map (fun c => Z.of_N (N_of_ascii c)) (hex.Encode b)) = Some b.
Proof.
  induction 1 as [| v l Hv _ IH]; cbn [hex.Encode map hex.Decode];
    [reflexivity |].
  rewrite !fromHexChar_digit, IH, nibbles_join; try reflexivity; try lia.
  - change 15 with (Z.ones 4). rewrite Z.land_ones by lia.
    apply Z.mod_pos_bound. lia.
  - rewrite Z.shiftr_div_pow2 by lia. split.
    + apply Z.div_pos; lia.
    + apply Z.div_lt_upper_bound; lia.
Qed.

Lemma DecodeString_EncodeToString b :
  Forall (fun x => 0 <= x < 256) b ->
  hex.DecodeString (hex.EncodeToString b) = Some b.
Proof.
  intros H. unfold hex.DecodeString, hex.EncodeToString, bytesOf.
  rewrite list_ascii_of_string_of_list_ascii. now apply Decode_Encode.
Qed.

(** X20. [ObjectIdHex] undoes [ToString]: for a valid id it gives the id
    back, for an id that is not twelve bytes long it panics with a string;
    and every id that [ObjectIdHex] returns is valid. *)
Theorem ObjectIdHex_ToString id :
  (Valid id = true -> ObjectIdHex (ToString id) = Ok id) /\
  (Valid id = false ->
   exists msg, ObjectIdHex (ToString id) = Panic (PString msg)) /\
  (forall s, ObjectIdHex s = Ok id -> Valid id = true).
Proof.
  assert (E : ObjectIdHex (ToString id)
              = if negb (len id =? 12)
                then Panic (PString ("Invalid input to ObjectIdHex: " ++
                                     ToString id))
                else Ok id).
  { unfold ObjectIdHex, ToString.
    rewrite DecodeString_EncodeToString by apply bytesOf_range.
    unfold blen, len. now rewrite length_bytesOf, stringOf_bytesOf. }
  unfold Valid. split; [| split].
  - intros V. now rewrite E, V.
  - intros V. rewrite E, V. eexists. reflexivity.
  - intros s H. unfold ObjectIdHex in H.
    destruct (hex.DecodeString s) as [d |]; [| discriminate].
    destruct (blen d =? 12) eqn:L; [| discriminate].
    cbn [negb] in H. inversion H; subst.
    unfold len. rewrite length_stringOf. exact L.
Qed.

Lemma ObjectIdHex_ToString_witness :
  ObjectIdHex (ToString (NewObjectIdSeconds 1300816219))
  = Ok (NewObjectIdSeconds 1300816219) /\
  (exists msg, ObjectIdHex (ToString "short") = Panic (PString msg)) /\
  Valid (NewObjectIdSeconds 1300816219) = true.
Proof.
  split; [| split].
  - apply (proj1 (ObjectIdHex_ToString (NewObjectIdSeconds 1300816219))).
    reflexivity.
  - apply (proj1 (proj2 (ObjectIdHex_ToString "short"))). reflexivity.
  - apply (proj2 (proj2 (ObjectIdHex_ToString (NewObjectIdSeconds 1300816219)))
             "4d88e15b0000000000000000").
    reflexivity.
Defined.

(** X21. An ObjectId is written as kind 0x07 and its twelve bytes exactly
    when it is twelve bytes long, and otherwise [addElem] panics with a
    string; the ids that [NewObjectId] and [NewObjectIdSeconds] return are
    always written. *)
Theorem ObjectId_element name id short e :
  (Valid id = true ->
   addElem name (VString typeObjectId id) short e
   = Ok (mkEncoder (out e ++ element 0x07 name (bytesOf id))) /\
   List.length (bytesOf id) = 12%nat) /\
  (Valid id = false ->
   exists msg,
     addElem name (VString typeObjectId id) short e = Panic (PString msg)) /\
  (forall sec, Valid (NewObjectIdSeconds sec) = true) /\
  (forall md5 env g g',
     NewObjectId md5 env g = Ok (id, g') -> Valid id = true).
Proof.
  unfold Valid. split; [| split; [| split]].
  - intros V. cbn [addElem]. rewrite V. cbn [negb]. split.
    + apply (emits_elem _ _ _ _ (emits_addBytes _)).
    + rewrite length_bytesOf. apply Z.eqb_eq in V. unfold len in V. lia.
  - intros V. cbn [addElem]. rewrite V. eexists. reflexivity.
  - intros sec. unfold NewObjectIdSeconds, len.
    now rewrite length_stringOf.
  - intros md5 env g g' H. exact (proj1 (NewObjectId_counter md5 env g id g' H)).
Qed.

Lemma ObjectId_element_witness :
  (addElem "_id" (VString typeObjectId (NewObjectIdSeconds 7)) false
     (mkEncoder [])
   = Ok (mkEncoder ([] ++ element 0x07 "_id"
                      (bytesOf (NewObjectIdSeconds 7)))) /\
   List.length (bytesOf (NewObjectIdSeconds 7)) = 12%nat) /\
  exists msg,
    addElem "_id" (VString typeObjectId "short") false (mkEncoder [])
    = Panic (PString msg).
Proof.
  split.
  - apply (proj1 (ObjectId_element "_id" (NewObjectIdSeconds 7) false
                    (mkEncoder []))). reflexivity.
  - apply (proj1 (proj2 (ObjectId_element "_id" "short" false (mkEncoder [])))).
    reflexivity.
Defined.

(* ------------------------------------------------------------------ *)
(** ** [D.Map] *)

Lemma MapFrom_app d1 d2 m : MapFrom (d1 ++ d2) m = MapFrom d2 (MapFrom d1 m).
Proof.
  revert m. induction d1 as [| [n x] d1 IH]; intros m; cbn; [reflexivity |].
  apply IH.
Qed.

Lemma MapFrom_other d : forall m k,
  ~ In k (map fst d) -> MapFrom d m k = m k.
Proof.
  induction d as [| [n x] d IH]; intros m k H; cbn; [reflexivity |].
  cbn in H. rewrite IH by tauto. unfold setM.
  destruct (String.eqb k n) eqn:E; [| reflexivity].
  apply String.eqb_eq in E. subst. tauto.
Qed.

(** X22. [D.Map] holds under each name the value of the last pair with
    that name, and nothing under a name that no pair has. *)
Theorem D_Map_last_wins k :
  (forall d, ~ In k (map fst d) -> D_Map d k = None) /\
  (forall d1 x d2, ~ In k (map fst d2) ->
     D_Map (d1 ++ (k, x) :: d2) k = Some x).
Proof.
  split.
  - intros d H. unfold D_Map. now rewrite MapFrom_other.
  - intros d1 x d2 H. unfold D_Map. rewrite MapFrom_app. cbn [MapFrom].
    rewrite MapFrom_other by exact H. unfold setM.
    now rewrite String.eqb_refl.
Qed.

Lemma D_Map_last_wins_witness :
  D_Map [("b", VBool true)] "a" = None /\
  D_Map ([("a", VBool false)] ++ ("a", VBool true) :: [("b", VBool false)]) "a"
  = Some (VBool true).
Proof.
  split.
  - apply (proj1 (D_Map_last_wins "a") [("b", VBool true)]).
    cbn. intros [H | []]. discriminate H.
  - apply (proj2 (D_Map_last_wins "a") [("a", VBool false)] (VBool true)
             [("b", VBool false)]).
    cbn. intros [H | []]. discriminate H.
Defined.

(* ------------------------------------------------------------------ *)
(** ** JavaScript code *)

(** X23. Code without a scope is written as kind 0x0D and the code as a
    string. Code with a scope is written as kind 0x0F, a length, the code
    as a string and the scope as the document [Marshal] returns for it; the
    length counts its own four bytes, the string and the document. *)
Theorem JS_element name code scope short d e :
  addElem name (JS code VInvalid) short e
  = Ok (mkEncoder (out e ++ element 0x0D name
                     (le32 (uint32 (int32 (len code + 1))) ++
                      bytesOf code ++ [0]))) /\
  (scope <> VInvalid ->
   Marshal scope = Ok (d, None) ->
   let str := le32 (uint32 (int32 (len code + 1))) ++ bytesOf code ++ [0] in
   addElem name (JS code scope) short e
   = Ok (mkEncoder (out e ++ element 0x0F name
                      (le32 (int32 (4 + blen (str ++ d))) ++ str ++ d)))).
Proof.
  split.
  - apply (emits_elem _ _ _ _ (emits_addStr code)).
  - intros Hs Hm str. apply Marshal_bytes in Hm.
    assert (E : forall e0,
               addElem name (JS code scope) short e0
               = (addElemName 0x0F name ;;
                  (fun e1 => let (start, e2) := reserveInt32 e1 in
                             ((addStr code ;; addDoc scope) ;; patch start) e2))
                   e0).
    { intros e0. unfold JS. cbn [addElem Field nth_error StringOf].
      destruct scope; try congruence; unfold andThen;
        destruct (addElemName 15 name e0); try reflexivity;
        unfold reserveInt32; now rewrite <- andThen_assoc. }
    rewrite E.
    rewrite (emits_elem _ _ _ _
               (emits_slot _ _ (emits_andThen _ _ _ _ (emits_addStr code) Hm))).
    unfold str. now rewrite <- !app_assoc.
Qed.

Lemma JS_element_witness :
  addElem "j" (JS "x" (VMap [])) false (mkEncoder [])
  = Ok (mkEncoder [15; 106; 0; 15; 0; 0; 0; 2; 0; 0; 0; 120; 0; 5; 0; 0; 0; 0]).
Proof.
  apply (proj2 (JS_element "j" "x" (VMap []) false [5; 0; 0; 0; 0]
                  (mkEncoder []))).
  - discriminate.
  - reflexivity.
Defined.

(* ------------------------------------------------------------------ *)
(** ** Strings *)

(** X24. A string is written as kind 0x02 and a Symbol as kind 0x0E, with
    the same payload: a length, the bytes of the string and a zero byte.
    For a string shorter than 2^31 - 1 bytes the length read as an int32 is
    the number of bytes that follow it, the zero included. *)
Theorem string_element name s short e :
  len s + 1 < 2 ^ 31 ->
  exists payload,
    addElem name (VString TString s) short e
    = Ok (mkEncoder (out e ++ element 0x02 name payload)) /\
    addElem name (VString typeSymbol s) short e
    = Ok (mkEncoder (out e ++ element 0x0E name payload)) /\
    readInt32 payload = Some (len s + 1) /\
    skipn 4 payload = bytesOf s ++ [0] /\
    blen (skipn 4 payload) = len s + 1.
Proof.
  intros H. exists (le32 (uint32 (int32 (len s + 1))) ++ bytesOf s ++ [0]).
  split; [| split; [| split; [| split]]].
  - apply (emits_elem _ _ _ _ (emits_addStr s)).
  - apply (emits_elem _ _ _ _ (emits_addStr s)).
  - rewrite readInt32_le32. f_equal. unfold uint32.
    rewrite int32_mod, int32_idem. apply int32_small. unfold len in *. lia.
  - reflexivity.
  - cbn [le32 app skipn]. unfold blen, len.
    rewrite length_app, length_bytesOf. cbn [List.length]. lia.
Qed.

Lemma string_element_witness :
  exists payload,
    addElem "hello" (VString TString "world") false (mkEncoder [])
    = Ok (mkEncoder ([] ++ element 0x02 "hello" payload)) /\
    addElem "hello" (VString typeSymbol "world") false (mkEncoder [])
    = Ok (mkEncoder ([] ++ element 0x0E "hello" payload)) /\
    readInt32 payload = Some (len "world" + 1) /\
    skipn 4 payload = bytesOf "world" ++ [0] /\
    blen (skipn 4 payload) = len "world" + 1.
Proof.
  apply (string_element "hello" "world" false (mkEncoder [])).
  reflexivity.
Defined.

(* ------------------------------------------------------------------ *)
(** ** The elements of a document, in order *)

Lemma emits_inj f d1 d2 : emits f d1 -> emits f d2 -> d1 = d2.
Proof.
  intros H1 H2. pose proof (H1 (mkEncoder [])) as A.
  rewrite (H2 (mkEncoder [])) in A. cbn in A. now inversion A.
Qed.

Lemma emits_not_fails f d p : emits f d -> fails f p -> False.
Proof.
  intros H1 H2. pose proof (H1 (mkEncoder [])) as A.
  rewrite (H2 (mkEncoder [])) in A. discriminate A.
Qed.

Lemma addD_bodies d : forall b,
  emits (addD_of addElem d) b ->
  exists bodies,
    Forall2 (fun p body => emits (addElem (fst p) (snd p) false) body)
            d bodies /\
    b = List.concat bodies.
Proof.
  induction d as [| [n x] rest IH]; intros b H; cbn [addD_of] in H.
  - exists []. split; [constructor |].
    exact (emits_inj _ _ _ H emits_ret).
  - destruct (proj1 (uniform_all x) n false) as [[b1 H1] | [p H1]].
    + assert (U : uniform (addD_of addElem rest)).
      { apply uniform_addD with (P := uniformAt); [exact uniformAt_elem |].
        apply Forall_forall. intros y _. apply uniform_all. }
      destruct U as [[b2 H2] | [p H2]].
      * destruct (IH b2 H2) as (bodies & F & E).
        exists (b1 :: bodies). split; [constructor; [exact H1 | exact F] |].
        cbn [List.concat]. rewrite <- E.
        exact (emits_inj _ _ _ H (emits_andThen _ _ _ _ H1 H2)).
      * exfalso. exact (emits_not_fails _ _ _ H (fails_andThen_r _ _ _ _ H1 H2)).
    + exfalso. exact (emits_not_fails _ _ _ H (fails_andThen_l _ _ _ H1)).
Qed.

(** X25. The document [Marshal] returns for a [D] is its length, the
    elements of the pairs in the order of the [D], each as [addElem] writes
    it on its own, and a zero byte. *)
Theorem D_elements_in_order d doc :
  Marshal (VD d) = Ok (doc, None) ->
  exists bodies,
    Forall2 (fun p body =>
               forall e, addElem (fst p) (snd p) false e
                         = Ok (mkEncoder (out e ++ body)))
            d bodies /\
    doc = le32 (int32 (4 + blen (List.concat bodies ++ [0]))) ++
          List.concat bodies ++ [0].
Proof.
  intros H. pose proof (Marshal_bytes _ _ H) as Hd.
  destruct (addDoc_shape (VD d) (mkEncoder []) (mkEncoder doc) eq_refl)
    as (b & Hb & Hs).
  { now rewrite Hd. }
  cbn [docRoot elements] in Hb.
  destruct (addD_bodies d b Hb) as (bodies & F & E).
  exists bodies. split; [exact F |]. subst b.
  exact (emits_inj _ _ _ Hd Hs).
Qed.

Lemma D_elements_in_order_witness :
  exists bodies,
    Forall2 (fun p body =>
               forall e, addElem (fst p) (snd p) false e
                         = Ok (mkEncoder (out e ++ body)))
            [("x", VBool true)] bodies /\
    [9; 0; 0; 0; 8; 120; 0; 1; 0]
    = le32 (int32 (4 + blen (List.concat bodies ++ [0]))) ++ List.concat bodies ++ [0].
Proof.
  apply (D_elements_in_order [("x", VBool true)]). reflexivity.
Defined.
